(** * getVariablesJSONSchema: GraphQL variable types to a JSON Schema document

    A shallow embedding of
    [packages/graphql-language-service/src/utils/getVariablesJSONSchema.ts]
    and the properties of its type renderer, its recursive schema
    synthesizer and its top-level aggregator. *)

From Stdlib Require Import String Ascii List Bool Arith Lia Permutation.
Import ListNotations.

Set Warnings "-register-all".

Local Open Scope string_scope.
Local Open Scope list_scope.

(** String concatenation, JavaScript's [+] on strings. *)
Infix "^^" := String.append (at level 60, right associativity).

(** The line feed of the source's ['\n']. *)
Definition nl : string := String (ascii_of_nat 10) EmptyString.

(* ================================================================= *)
(** ** JSON values and JavaScript objects *)

(** The values that occur in a schema document.  The synthesizer does no
    arithmetic: it copies numbers, tests them for truthiness and, in one
    place, turns them into text.  A number is therefore held as the text
    that JavaScript prints for it ([1], [-0.5], [1e+21]), which determines
    it up to the sign of zero. *)
Inductive JSON : Type :=
| JNull
| JBool (b : bool)
| JNumber (printed : string)
| JString (s : string)
| JArray (elements : list JSON)
| JObject (members : list (string * JSON)).

(** A JavaScript object with string keys: its own enumerable properties in
    insertion order.  (GraphQL names are never integer-like, so insertion
    order is the enumeration order.)  The prototype of an object is not
    part of the model; where the source depends on it, the definition at
    hand says so. *)
Definition Obj : Type := list (string * JSON).

(** [o[k]], with [None] for [undefined]. *)
Fixpoint obj_get (k : string) (o : Obj) : option JSON :=
  match o with
  | [] => None
  | (k', v) :: rest => if k' =? k then Some v else obj_get k rest
  end.

(** [o[k] = v] where [k] names no accessor, as for a literal key and for
    every key of an object made by [Object.create(null)]: an existing
    property keeps its place, a new one goes last. *)
Fixpoint obj_set (k : string) (v : JSON) (o : Obj) : Obj :=
  match o with
  | [] => [(k, v)]
  | (k', v') :: rest =>
      if k' =? k then (k, v) :: rest else (k', v') :: obj_set k v rest
  end.

(** [o[k] = v] for a computed key [k] of an object literal [o], which
    inherits from [Object.prototype], and an object [v]: the key
    [__proto__] names the accessor of the prototype, so that the assignment
    replaces the prototype of [o] and gives [o] no property. *)
Definition obj_assign (k : string) (v : JSON) (o : Obj) : Obj :=
  if k =? "__proto__" then o else obj_set k v o.

(** [for (const k of Object.keys(b)) a[k] = b[k]], also [{...a, ...b}] when
    [a] is a fresh copy. *)
Definition obj_spread (a b : Obj) : Obj :=
  fold_left (fun acc kv => obj_set (fst kv) (snd kv) acc) b a.

Definition obj_keys (o : Obj) : list string := map fst o.

(** JavaScript truthiness of a value. *)
Definition truthy (v : JSON) : bool :=
  match v with
  | JNull => false
  | JBool b => b
  | JNumber printed => negb (printed =? "0") && negb (printed =? "NaN")
  | JString s => negb (s =? "")
  | JArray _ => true
  | JObject _ => true
  end.

(** [o[k]] when it is truthy. *)
Definition truthyMember (k : string) (o : Obj) : option JSON :=
  match obj_get k o with
  | Some v => if truthy v then Some v else None
  | None => None
  end.

(** Whether JavaScript can convert the value to a string.  The conversion
    of an object calls its [toString]; for an object of JSON that is
    [Object.prototype.toString], unless the object has a member [toString]
    of its own, which is no function: then the conversion throws a
    [TypeError].  The conversion of an array joins the converted elements,
    and throws where one of them does. *)
Fixpoint convertible (v : JSON) : bool :=
  match v with
  | JArray elements => forallb convertible elements
  | JObject members =>
      negb (existsb (fun member => fst member =? "toString") members)
  | _ => true
  end.

(** JavaScript's conversion of a value to a string, as [+] with a string
    performs it on a [convertible] value. *)
Fixpoint js_toString (v : JSON) : string :=
  match v with
  | JNull => "null"
  | JBool true => "true"
  | JBool false => "false"
  | JNumber printed => printed
  | JString s => s
  | JArray elements =>
      String.concat ","
        (map (fun e => match e with JNull => "" | _ => js_toString e end)
           elements)
  | JObject _ => "[object Object]"
  end.

(** A [Maybe<string>] that is truthy: present and not empty. *)
Definition truthyString (s : option string) : option string :=
  match s with
  | Some d => if d =? "" then None else Some d
  | None => None
  end.

(* ================================================================= *)
(** ** GraphQL input types *)

(** The input types of graphql-js.  Scalars and enums are leaves and carry
    their data; an input object type is named, and its description and
    fields are looked up in the schema, which is how the recursive and
    mutually recursive types of a schema are written down. *)
Inductive GraphQLInputType : Type :=
| GraphQLScalarType (name : string) (description : option string)
| GraphQLEnumType (name : string) (description : option string)
    (values : list string)
| GraphQLInputObjectType (name : string)
| GraphQLList (ofType : GraphQLInputType)
| GraphQLNonNull (ofType : GraphQLInputType).

Record GraphQLInputField : Type := {
  field_name : string;
  field_description : option string;
  field_type : GraphQLInputType;
  field_defaultValue : option JSON
}.

Record InputObjectDeclaration : Type := {
  io_description : option string;
  io_fields : list GraphQLInputField
}.

(** The input object types of a schema, by name. *)
Definition Schema : Type := list (string * InputObjectDeclaration).

Fixpoint lookup {A : Type} (name : string) (table : list (string * A))
  : option A :=
  match table with
  | [] => None
  | (k, v) :: rest => if k =? name then Some v else lookup name rest
  end.

(** The synthesizer is called on types and, once per field, on the field
    itself. *)
Inductive TypeOrField : Type :=
| OfType (t : GraphQLInputType)
| OfField (f : GraphQLInputField).

Definition isNonNullType (t : GraphQLInputType) : bool :=
  match t with GraphQLNonNull _ => true | _ => false end.

Fixpoint typeSize (t : GraphQLInputType) : nat :=
  match t with
  | GraphQLList ofType => S (typeSize ofType)
  | GraphQLNonNull ofType => S (typeSize ofType)
  | _ => 1
  end.

(* ================================================================= *)
(** ** The type renderer *)

Definition text (into : list string) (newText : string) : list string :=
  into ++ [newText].

Fixpoint renderType (into : list string) (t : GraphQLInputType)
  : list string :=
  match t with
  | GraphQLNonNull ofType => text (renderType into ofType) "!"
  | GraphQLList ofType => text (renderType (text into "[") ofType) "]"
  | GraphQLScalarType name _ => text into name
  | GraphQLEnumType name _ _ => text into name
  | GraphQLInputObjectType name => text into name
  end.

Definition renderTypeOrField (into : list string) (t : TypeOrField)
  : list string :=
  match t with
  | OfType t => renderType into t
  | OfField f => text into (field_name f)
  end.

Definition renderTypeToString (t : TypeOrField) (useMarkdown : bool)
  : string :=
  let into := [] in
  let into := if useMarkdown then text into ("```graphql" ^^ nl) else into in
  let into := renderTypeOrField into t in
  let into := if useMarkdown then text into (nl ^^ "```") else into in
  String.concat "" into.

(* ================================================================= *)
(** ** The schema synthesizer *)

(** The names that every object literal inherits from [Object.prototype]. *)
Definition inheritedNames : list string :=
  ["constructor"; "__defineGetter__"; "__defineSetter__"; "hasOwnProperty";
   "__lookupGetter__"; "__lookupSetter__"; "isPrototypeOf";
   "propertyIsEnumerable"; "toString"; "valueOf"; "__proto__";
   "toLocaleString"].

(** [scalarTypesMap[name]], the entries of the table.  The table is an
    object literal: for a name among [inheritedNames] the lookup of line 157
    finds the inherited member, which is truthy and no type tag, and for
    which the values of the model have no counterpart.  The model takes
    the names of scalars to be outside [inheritedNames], and the theorems
    on the override of a custom scalar say so. *)
Definition scalarTypesMap (name : string) : option string :=
  if name =? "Int" then Some "integer"
  else if name =? "String" then Some "string"
  else if name =? "Float" then Some "number"
  else if name =? "ID" then Some "string"
  else if name =? "Boolean" then Some "boolean"
  else if name =? "DateTime" then Some "string"
  else None.

(** [class Marker]: a [Set] of names, in insertion order. *)
Definition Marker : Type := list string.

Definition marked (name : string) (set : Marker) : bool :=
  existsb (String.eqb name) set.

Definition mark (name : string) (set : Marker) : bool * Marker :=
  if marked name set then (false, set) else (true, set ++ [name]).

(** [JSONSchemaOptions]: an absent [useMarkdownDescription] is [false], an
    absent [customScalarSchemas] has no entries; an override is an object,
    as [Record<string, JSONSchema6>] has it, and its members are any JSON.
    The marker of [JSONSchemaRunningOptions] is threaded through the calls
    as their state. *)
Record JSONSchemaOptions : Type := {
  useMarkdownDescription : bool;
  customScalarSchemas : list (string * Obj)
}.

Record DefinitionResult : Type := {
  definition : Obj;
  required : bool;
  definitions : Obj
}.

(** A call returns, throws a [TypeError] (pushing onto a [oneOf] that is no
    array, converting a description that has no text), or has used up the
    recursion budget of the model. *)
Inductive outcome (A : Type) : Type :=
| Ok (a : A)
| TypeError
| OutOfFuel.

Arguments Ok {A} a.
Arguments TypeError {A}.
Arguments OutOfFuel {A}.

(** The override is typed as [JSONSchema6] has it where a push depends on
    it: its [oneOf], if it has one, is an array. *)
Definition oneOfIsArray (custom : Obj) : Prop :=
  forall v, obj_get "oneOf" custom = Some v ->
            exists alternatives, v = JArray alternatives.

(** The description of the override, if it has one, has a text: a string,
    as [JSONSchema6] has it, or any other value that can be converted. *)
Definition descriptionHasText (custom : Obj) : Prop :=
  forall v, obj_get "description" custom = Some v -> convertible v = true.

(** The call comes to an end within the budget. *)
Definition terminates {A : Type} (x : outcome A) : Prop :=
  (exists a, x = Ok a) \/ x = TypeError.

Definition bind {A B : Type} (x : outcome A) (k : A -> outcome B)
  : outcome B :=
  match x with
  | Ok a => k a
  | TypeError => TypeError
  | OutOfFuel => OutOfFuel
  end.

Notation "x <- e ;; k" := (bind e (fun x => k))
  (at level 61, e at next level, right associativity).
Notation "' p <- e ;; k" := (bind e (fun x => match x with p => k end))
  (at level 61, p pattern, e at next level, right associativity).

Definition refTo (name : string) : JSON :=
  JString ("#/definitions/" ^^ name).

Definition nullSchema : JSON := JObject [("type", JString "null")].

Definition anyScalar : JSON :=
  JArray [JString "string"; JString "number"; JString "boolean";
          JString "integer"].

(** [description ? description + '\n' + rendered : rendered]. *)
Definition described (description : option string) (rendered : string)
  : string :=
  match truthyString description with
  | Some d => d ^^ nl ^^ rendered
  | None => rendered
  end.

Section Synthesizer.

Variable schema : Schema.
Variable options : JSONSchemaOptions.

Definition typeDescription (name : string) : option string :=
  match lookup name schema with
  | Some declaration => io_description declaration
  | None => None
  end.

Definition getFields (name : string) : list GraphQLInputField :=
  match lookup name schema with
  | Some declaration => io_fields declaration
  | None => []
  end.

(** Lines 144-146: only fields have a [defaultValue]. *)
Definition defaultBlock (type : TypeOrField) (def : Obj) : Obj :=
  match type with
  | OfField f =>
      match field_defaultValue f with
      | Some v => obj_set "default" v def
      | None => def
      end
  | OfType _ => def
  end.

(** Lines 148-153. *)
Definition enumBlock (values : list string) (isNonNull : bool) (def : Obj)
  : Obj :=
  obj_set "enum"
    (JArray (map JString values ++ if isNonNull then [] else [JNull])) def.

(** Lines 172-184: a custom scalar in a nullable context. *)
Definition broaden (def : Obj) : outcome Obj :=
  let viaOneOf :=
    match obj_get "oneOf" def with
    | Some (JArray alternatives) =>
        Ok (obj_set "oneOf" (JArray (alternatives ++ [nullSchema])) def)
    | Some v =>
        if truthy v then TypeError
        else Ok [("oneOf", JArray [JObject def; nullSchema])]
    | None => Ok [("oneOf", JArray [JObject def; nullSchema])]
    end in
  match obj_get "type" def with
  | Some (JArray tags) =>
      Ok (obj_set "type" (JArray (tags ++ [JString "null"])) def)
  | Some tag =>
      if truthy tag
      then Ok (obj_set "type" (JArray [tag; JString "null"]) def)
      else viaOneOf
  | None => viaOneOf
  end.

(** Lines 155-186; the deep clone of an override is the override. *)
Definition scalarBlock (name : string) (isNonNull : bool) (def : Obj)
  : outcome Obj :=
  match scalarTypesMap name with
  | Some tag =>
      if isNonNull then Ok (obj_set "type" (JString tag) def)
      else Ok (obj_set "type" (JArray [JString tag; JString "null"]) def)
  | None =>
      let def :=
        match lookup name (customScalarSchemas options) with
        | Some custom => custom
        | None => obj_set "type" anyScalar def
        end in
      if isNonNull then Ok def else broaden def
  end.

(** Lines 199-205: the item schema of a list. *)
Definition listItems (def : Obj) : Obj :=
  match truthyMember "$ref" def with
  | Some ref => [("$ref", ref)]
  | None =>
      match truthyMember "oneOf" def with
      | Some alternatives => [("oneOf", alternatives)]
      | None => def
      end
  end.

(** Lines 189-193. *)
Definition arrayType (isNonNull : bool) : JSON :=
  if isNonNull then JString "array"
  else JArray [JString "array"; JString "null"].

(** Lines 229-236. *)
Definition referenceBlock (name : string) (isNonNull : bool) (def : Obj)
  : Obj :=
  if isNonNull then obj_set "$ref" (refTo name) def
  else obj_set "oneOf"
         (JArray [JObject [("$ref", refTo name)]; nullSchema]) def.

(** Lines 240-259 and 302: the object schema of an input object type,
    around the properties and the required list that the loop over its
    fields fills in. *)
Definition fieldDefOf (name : string) (properties : Obj)
  (requiredFields : list JSON) : Obj :=
  let type := OfType (GraphQLInputObjectType name) in
  [("type", JString "object");
   ("properties", JObject properties);
   ("required", JArray requiredFields);
   ("description",
     JString (described (typeDescription name)
                (renderTypeToString type false)))]
  ++ (if useMarkdownDescription options
      then [("markdownDescription",
              JString (described (typeDescription name)
                         (renderTypeToString type true)))]
      else []).

(** Lines 274-291: the property of one field. *)
Definition fieldProperty (field : GraphQLInputField)
  (typeDefinition fieldDefinition : Obj) : Obj :=
  let type := OfType (field_type field) in
  let property := obj_spread (obj_spread [] typeDefinition) fieldDefinition in
  let property :=
    obj_set "description"
      (JString (described (field_description field)
                  (renderTypeToString type false))) property in
  if useMarkdownDescription options
  then obj_set "markdownDescription"
         (JString (described (field_description field)
                     (renderTypeToString type true))) property
  else property.

(** ['description' in ofType && !isScalarType(ofType) && ofType.description]:
    lists and non-null wrappers have no description, fields, enums and
    input objects do. *)
Definition ownDescription (ofType : TypeOrField) : option string :=
  match ofType with
  | OfField f => truthyString (field_description f)
  | OfType (GraphQLEnumType _ description _) => truthyString description
  | OfType (GraphQLInputObjectType name) =>
      truthyString (typeDescription name)
  | OfType _ => None
  end.

(** Lines 306-338: the description of a nullable occurrence. *)
Definition describe (type : TypeOrField) (def : Obj) : Obj :=
  let ofType :=
    match type with
    | OfType (GraphQLNonNull ofType) => OfType ofType
    | _ => type
    end in
  let markdown (description : string) (d : Obj) : Obj :=
    if useMarkdownDescription options
    then obj_set "markdownDescription"
           (JString (description ^^ nl ^^ renderTypeToString type true)) d
    else d in
  match ownDescription ofType, truthyMember "description" def with
  | Some description, None =>
      markdown description
        (obj_set "description"
           (JString (description ^^ nl ^^ renderTypeToString type false))
           def)
  | _, Some current =>
      let appended :=
        js_toString current ^^ nl ^^ renderTypeToString type false in
      markdown appended (obj_set "description" (JString appended) def)
  | None, None =>
      let def :=
        obj_set "description" (JString (renderTypeToString type false))
          def in
      if useMarkdownDescription options
      then obj_set "markdownDescription"
             (JString (renderTypeToString type true)) def
      else def
  end.

(** Line 325: [definition.description += ...] converts the description at
    hand, an override's, to a string, and throws if it cannot. *)
Definition describable (isNonNull : bool) (def : Obj) : bool :=
  isNonNull ||
  match truthyMember "description" def with
  | Some current => convertible current
  | None => true
  end.

(** Lines 306-340: the description, unless the context is non-null, and
    the result. *)
Definition finish (type : TypeOrField) (isNonNull : bool) (def : Obj)
  (isRequired : bool) (defs : Obj) : DefinitionResult :=
  {| definition := if isNonNull then def else describe type def;
     required := isRequired;
     definitions := defs |}.

Definition Synthesis : Type := DefinitionResult * Marker.

(** Lines 261-301: the loop over the fields of an input object type.
    [synthesize] is the synthesizer itself, for the two recursive calls. *)
Fixpoint fieldsLoop
  (synthesize : TypeOrField -> bool -> Marker -> outcome Synthesis)
  (fields : list GraphQLInputField)
  (properties : Obj) (requiredFields : list JSON) (defs : Obj)
  (marker : Marker) : outcome (Obj * list JSON * Obj * Marker) :=
  match fields with
  | [] => Ok (properties, requiredFields, defs, marker)
  | field :: rest =>
      '(ofType, marker) <-
        synthesize (OfType (field_type field)) false marker ;;
      '(ofField, marker) <- synthesize (OfField field) false marker ;;
      fieldsLoop synthesize rest
        (obj_assign (field_name field)
           (JObject
              (fieldProperty field (definition ofType) (definition ofField)))
           properties)
        (if required ofType
         then requiredFields ++ [JString (field_name field)]
         else requiredFields)
        (obj_spread defs (definitions ofType))
        marker
  end.

(** Lines 134-341.  The kinds of type exclude one another, so that of the
    blocks of the source the one for the kind at hand runs, between the
    default value and the description.  The call throws where a block
    does: the custom scalar block at line 178, the description block at
    line 325.  [fuel] bounds the depth of the recursion. *)
Fixpoint getJSONSchemaFromGraphQLType (fuel : nat) (type : TypeOrField)
  (isNonNull : bool) (marker : Marker) {struct fuel} : outcome Synthesis :=
  match fuel with
  | O => OutOfFuel
  | S fuel =>
      let def := defaultBlock type [] in
      '(def, isRequired, defs, marker) <-
        match type with
        | OfField _ => Ok (def, false, [], marker)
        | OfType (GraphQLEnumType _ _ values) =>
            Ok (enumBlock values isNonNull def, false, [], marker)
        | OfType (GraphQLScalarType name _) =>
            def <- scalarBlock name isNonNull def ;;
            Ok (def, false, [], marker)
        | OfType (GraphQLList ofType) =>
            let def := obj_set "type" (arrayType isNonNull) def in
            '(inner, marker) <-
              getJSONSchemaFromGraphQLType fuel (OfType ofType) false
                marker ;;
            Ok (obj_set "items" (JObject (listItems (definition inner))) def,
                false, obj_spread [] (definitions inner), marker)
        | OfType (GraphQLNonNull ofType) =>
            '(inner, marker) <-
              getJSONSchemaFromGraphQLType fuel (OfType ofType) true
                marker ;;
            Ok (definition inner, true, obj_spread [] (definitions inner),
                marker)
        | OfType (GraphQLInputObjectType name) =>
            let def := referenceBlock name isNonNull def in
            let (fresh, marker) := mark name marker in
            if fresh then
              '(properties, requiredFields, defs, marker) <-
                fieldsLoop (getJSONSchemaFromGraphQLType fuel)
                  (getFields name) [] [] [] marker ;;
              Ok (def, false,
                  obj_set name
                    (JObject (fieldDefOf name properties requiredFields))
                    defs,
                  marker)
            else Ok (def, false, [], marker)
        end ;;
      if describable isNonNull def
      then Ok (finish type isNonNull def isRequired defs, marker)
      else TypeError
  end.

(** *** The top-level aggregator *)

(** The deepest type of a field of the schema, plus the call on the field
    or on the type. *)
Definition fieldBudget : nat :=
  S (fold_right
       (fun declaration acc =>
          fold_right (fun f acc => Nat.max (typeSize (field_type f)) acc)
            acc (io_fields (snd declaration)))
       0 schema).

(** A recursion budget that suffices for [type] whatever the marker holds. *)
Definition fuelFor (type : GraphQLInputType) : nat :=
  typeSize type + length schema * fieldBudget.

(** Lines 398-408: the loop over the variables.  [defs] is
    [jsonSchema.definitions], [None] while it is [undefined]. *)
Fixpoint variablesLoop (entries : list (string * GraphQLInputType))
  (properties : Obj) (requiredVariables : list JSON) (defs : option Obj)
  (marker : Marker)
  : outcome (Obj * list JSON * option Obj * Marker) :=
  match entries with
  | [] => Ok (properties, requiredVariables, defs, marker)
  | (variableName, type) :: rest =>
      '(result, marker) <-
        getJSONSchemaFromGraphQLType (fuelFor type) (OfType type) false
          marker ;;
      variablesLoop rest
        (obj_assign variableName (JObject (definition result)) properties)
        (if required result
         then requiredVariables ++ [JString variableName]
         else requiredVariables)
        (Some (obj_spread
                 (obj_spread []
                    (match defs with Some d => d | None => [] end))
                 (definitions result)))
        marker
  end.

(** The document, from what the loop has accumulated. *)
Definition document (properties : Obj) (requiredVariables : list JSON)
  (defs : option Obj) : Obj :=
  [("$schema", JString "https://json-schema.org/draft/2020-12/schema");
   ("type", JString "object");
   ("properties", JObject properties);
   ("required", JArray requiredVariables)]
  ++ match defs with
     | Some d => [("definitions", JObject d)]
     | None => []
     end.

(** Lines 380-411, with a fresh marker; [variableToType] is the entries of
    the map in their order (the guard of line 396 is on a map that its type
    makes present). *)
Definition getVariablesJSONSchema
  (variableToType : list (string * GraphQLInputType)) : outcome Obj :=
  '(properties, requiredVariables, defs, _) <-
    variablesLoop variableToType [] [] None [] ;;
  Ok (document properties requiredVariables defs).

End Synthesizer.

(* ================================================================= *)
(** ** Runs of the synthesizer as derivations *)

Section Runs.

Variable schema : Schema.
Variable options : JSONSchemaOptions.

(** [Synth type isNonNull marker result marker' written]: the call on
    [type] in the context [isNonNull] with the marker holding [marker]
    returns [result] and leaves [marker'] (of the kinds of type, a scalar
    and a non-null wrapper can come with a description of an override, which
    line 325 must be able to convert); [written] lists, in order, the
    names [n] for which the call or a call within it has run
    [definitions[n] = fieldDef] (line 302).  [Fields] is the loop over the
    fields of an input object type, from and to its four variables. *)
Inductive Synth
  : TypeOrField -> bool -> Marker -> DefinitionResult -> Marker ->
    list string -> Prop :=
| Synth_field f isNonNull marker :
    Synth (OfField f) isNonNull marker
      (finish schema options (OfField f) isNonNull
         (defaultBlock (OfField f) []) false [])
      marker []
| Synth_enum name description values isNonNull marker :
    Synth (OfType (GraphQLEnumType name description values)) isNonNull
      marker
      (finish schema options
         (OfType (GraphQLEnumType name description values)) isNonNull
         (enumBlock values isNonNull []) false [])
      marker []
| Synth_scalar name description isNonNull marker def :
    scalarBlock options name isNonNull [] = Ok def ->
    describable isNonNull def = true ->
    Synth (OfType (GraphQLScalarType name description)) isNonNull marker
      (finish schema options (OfType (GraphQLScalarType name description))
         isNonNull def false [])
      marker []
| Synth_list ofType isNonNull marker inner marker' written :
    Synth (OfType ofType) false marker inner marker' written ->
    Synth (OfType (GraphQLList ofType)) isNonNull marker
      (finish schema options (OfType (GraphQLList ofType)) isNonNull
         (obj_set "items" (JObject (listItems (definition inner)))
            (obj_set "type" (arrayType isNonNull) []))
         false (obj_spread [] (definitions inner)))
      marker' written
| Synth_nonNull ofType isNonNull marker inner marker' written :
    Synth (OfType ofType) true marker inner marker' written ->
    describable isNonNull (definition inner) = true ->
    Synth (OfType (GraphQLNonNull ofType)) isNonNull marker
      (finish schema options (OfType (GraphQLNonNull ofType)) isNonNull
         (definition inner) true (obj_spread [] (definitions inner)))
      marker' written
| Synth_marked name isNonNull marker :
    marked name marker = true ->
    Synth (OfType (GraphQLInputObjectType name)) isNonNull marker
      (finish schema options (OfType (GraphQLInputObjectType name))
         isNonNull (referenceBlock name isNonNull []) false [])
      marker []
| Synth_expand name isNonNull marker properties requiredFields defs
    marker' written :
    marked name marker = false ->
    Fields (getFields schema name) [] [] [] (marker ++ [name])
      properties requiredFields defs marker' written ->
    Synth (OfType (GraphQLInputObjectType name)) isNonNull marker
      (finish schema options (OfType (GraphQLInputObjectType name))
         isNonNull (referenceBlock name isNonNull []) false
         (obj_set name
            (JObject (fieldDefOf schema options name properties
                        requiredFields))
            defs))
      marker' (written ++ [name])
with Fields
  : list GraphQLInputField -> Obj -> list JSON -> Obj -> Marker ->
    Obj -> list JSON -> Obj -> Marker -> list string -> Prop :=
| Fields_done properties requiredFields defs marker :
    Fields [] properties requiredFields defs marker
      properties requiredFields defs marker []
| Fields_step field rest properties requiredFields defs marker
    ofType marker1 written1 ofField marker2 written2
    properties' requiredFields' defs' marker' written' :
    Synth (OfType (field_type field)) false marker ofType marker1
      written1 ->
    Synth (OfField field) false marker1 ofField marker2 written2 ->
    Fields rest
      (obj_assign (field_name field)
         (JObject
            (fieldProperty options field (definition ofType)
               (definition ofField)))
         properties)
      (if required ofType
       then requiredFields ++ [JString (field_name field)]
       else requiredFields)
      (obj_spread defs (definitions ofType))
      marker2 properties' requiredFields' defs' marker' written' ->
    Fields (field :: rest) properties requiredFields defs marker
      properties' requiredFields' defs' marker'
      (written1 ++ written2 ++ written').

(** The loop over the variables, likewise. *)
Inductive Variables
  : list (string * GraphQLInputType) -> Obj -> list JSON -> option Obj ->
    Marker -> Obj -> list JSON -> option Obj -> Marker -> list string ->
    Prop :=
| Variables_done properties requiredVariables defs marker :
    Variables [] properties requiredVariables defs marker
      properties requiredVariables defs marker []
| Variables_step variableName type rest properties requiredVariables defs
    marker result marker1 written1 properties' requiredVariables' defs'
    marker' written' :
    Synth (OfType type) false marker result marker1 written1 ->
    Variables rest
      (obj_assign variableName (JObject (definition result)) properties)
      (if required result
       then requiredVariables ++ [JString variableName]
       else requiredVariables)
      (Some (obj_spread
               (obj_spread []
                  (match defs with Some d => d | None => [] end))
               (definitions result)))
      marker1 properties' requiredVariables' defs' marker' written' ->
    Variables ((variableName, type) :: rest) properties requiredVariables
      defs marker properties' requiredVariables' defs' marker'
      (written1 ++ written').

(** *** The type graph *)

(** [reaches type name]: the input object type [name] occurs in [type],
    under its wrappers or through the fields of the input object types
    it leads to. *)
Inductive reaches : GraphQLInputType -> string -> Prop :=
| reaches_self name : reaches (GraphQLInputObjectType name) name
| reaches_list ofType name :
    reaches ofType name -> reaches (GraphQLList ofType) name
| reaches_nonNull ofType name :
    reaches ofType name -> reaches (GraphQLNonNull ofType) name
| reaches_field owner field name :
    In field (getFields schema owner) ->
    reaches (field_type field) name ->
    reaches (GraphQLInputObjectType owner) name.

(** [occurs variableToType type]: a run on [variableToType] comes to
    describe [type]: it is the type of a variable, or the type of the items
    of a list that occurs, or the type under a non-null wrapper that occurs,
    or the type of a field of an input object type that occurs. *)
Inductive occurs (variableToType : list (string * GraphQLInputType))
  : GraphQLInputType -> Prop :=
| occurs_variable variableName type :
    In (variableName, type) variableToType -> occurs variableToType type
| occurs_items ofType :
    occurs variableToType (GraphQLList ofType) ->
    occurs variableToType ofType
| occurs_wrapped ofType :
    occurs variableToType (GraphQLNonNull ofType) ->
    occurs variableToType ofType
| occurs_field owner field :
    occurs variableToType (GraphQLInputObjectType owner) ->
    In field (getFields schema owner) ->
    occurs variableToType (field_type field).

(** The input object type under the wrappers of a type. *)
Fixpoint inputObjectOf (type : GraphQLInputType) : option string :=
  match type with
  | GraphQLInputObjectType name => Some name
  | GraphQLList ofType => inputObjectOf ofType
  | GraphQLNonNull ofType => inputObjectOf ofType
  | _ => None
  end.

(** Every marked type that is not among [pending], the types whose fields
    are being expanded, has the input object types of its fields
    marked. *)
Definition settled (marker : Marker) (pending : list string) : Prop :=
  forall owner field name,
    In owner marker -> ~ In owner pending ->
    In field (getFields schema owner) ->
    inputObjectOf (field_type field) = Some name ->
    In name marker.

(** The declared input object types that the marker does not hold yet. *)
Definition unmarked (marker : Marker) : nat :=
  length (filter (fun name => negb (marked name marker))
            (map fst schema)).

End Runs.

Scheme Synth_Fields_ind := Minimality for Synth Sort Prop
  with Fields_Synth_ind := Minimality for Fields Sort Prop.

Combined Scheme Synth_Fields_mutind from Synth_Fields_ind, Fields_Synth_ind.

(** [marker'] is [marker] followed by the names [new], each of them once
    and none of them in [marker]. *)
Definition extends (marker marker' new : list string) : Prop :=
  marker' = marker ++ new /\ NoDup new /\
  forall name, In name new -> ~ In name marker.

(** The depth of the calls that a call on [type] makes before it reaches a
    named type. *)
Definition callSize (type : TypeOrField) : nat :=
  match type with OfType t => typeSize t | OfField _ => 1 end.

(** [jsonSchema.definitions] or, while it is [undefined], no entries. *)
Definition entriesOf (defs : option Obj) : Obj :=
  match defs with Some d => d | None => [] end.

(* ================================================================= *)
(** ** Fragments of a schema document *)

(** The keywords of JSON Schema (draft 6) under which a schema holds one
    schema, an array of schemas, or a map from names to schemas. *)
Definition schemaKeywords : list string :=
  ["items"; "additionalItems"; "contains"; "additionalProperties";
   "propertyNames"; "not"].
Definition schemaArrayKeywords : list string :=
  ["items"; "allOf"; "anyOf"; "oneOf"].
Definition schemaMapKeywords : list string :=
  ["properties"; "patternProperties"; "definitions"; "dependencies"].

(** [subschema s c]: [c] stands directly in [s] where a schema is expected. *)
Inductive subschema : JSON -> JSON -> Prop :=
| subschema_single k o c :
    In k schemaKeywords -> In (k, c) o -> subschema (JObject o) c
| subschema_array k o elements c :
    In k schemaArrayKeywords -> In (k, JArray elements) o -> In c elements ->
    subschema (JObject o) c
| subschema_map k o entries name c :
    In k schemaMapKeywords -> In (k, JObject entries) o ->
    In (name, c) entries -> subschema (JObject o) c.

(** [fragmentOf doc s]: [s] is [doc] or a schema anywhere within it. *)
Inductive fragmentOf : JSON -> JSON -> Prop :=
| fragment_here doc : fragmentOf doc doc
| fragment_inside doc c s :
    subschema doc c -> fragmentOf c s -> fragmentOf doc s.

(** Every fragment of [doc] satisfies [P]. *)
Definition allFragments (P : JSON -> Prop) (doc : JSON) : Prop :=
  forall s, fragmentOf doc s -> P s.

(** Every fragment properly inside the object satisfies [P]. *)
Definition allInside (P : JSON -> Prop) (o : Obj) : Prop :=
  forall c, subschema (JObject o) c -> allFragments P c.

(** [P] says nothing about what is no object. *)
Definition aboutObjects (P : JSON -> Prop) : Prop :=
  forall s, (forall o, s <> JObject o) -> P s.

(** The values of a map of schemas are such documents. *)
Definition allEntries (P : JSON -> Prop) (entries : Obj) : Prop :=
  forall name d, In (name, d) entries -> allFragments P d.

(** A fragment offers [null]: ['null'] in the list of its type tags, [null]
    among its enum values, or [{type: 'null'}] among its alternatives. *)
Definition inArrayOf (k : string) (x : JSON) (o : Obj) : Prop :=
  exists elements, obj_get k o = Some (JArray elements) /\ In x elements.

Definition hasNullAlternative (o : Obj) : Prop :=
  inArrayOf "type" (JString "null") o \/
  inArrayOf "enum" JNull o \/
  inArrayOf "oneOf" nullSchema o.

(** A reference of the form [#/definitions/<Name>] with [Name] among
    [names]. *)
Definition refersInto (names : list string) (ref : JSON) : Prop :=
  exists name, ref = JString ("#/definitions/" ^^ name) /\ In name names.

(** The [$ref] of a fragment, if it has one, refers into [names]. *)
Definition refsInto (names : list string) (s : JSON) : Prop :=
  forall o ref, s = JObject o -> In ("$ref", ref) o -> refersInto names ref.

(** Every reference in the object and within it refers into [names]. *)
Definition good (names : list string) (o : Obj) : Prop :=
  allFragments (refsInto names) (JObject o).

(** The schema has no member [k]. *)
Definition lacks (k : string) (s : JSON) : Prop :=
  forall o v, s = JObject o -> ~ In (k, v) o.

(** A signature as a fenced code block of markdown. *)
Definition fenceOf (signature : string) : string :=
  "```graphql" ^^ nl ^^ signature ^^ nl ^^ "```".

(** A fragment with a [description] has a [markdownDescription] too.  The
    description is the rendered signature of one of the [types], after the
    line of a description if there is one; the markdown text is the same
    with that signature fenced. *)
Definition markdownMirrored (types : GraphQLInputType -> Prop) (s : JSON)
  : Prop :=
  forall o v, s = JObject o -> In ("description", v) o ->
    exists description type,
      types type /\
      v = JString (described description
                     (renderTypeToString (OfType type) false)) /\
      obj_get "markdownDescription" o
      = Some (JString
                (described description
                   (fenceOf (renderTypeToString (OfType type) false)))).

(** The object has no description yet, and the fragments inside it have
    their descriptions mirrored. *)
Definition bare (types : GraphQLInputType -> Prop) (o : Obj) : Prop :=
  (forall v, ~ In ("description", v) o) /\
  allInside (markdownMirrored types) o.

(** What the fragment of a call in the context [isNonNull] satisfies. *)
Definition mirroredIn (types : GraphQLInputType -> Prop) (isNonNull : bool)
  (o : Obj) : Prop :=
  if isNonNull then bare types o
  else allFragments (markdownMirrored types) (JObject o).

(* ================================================================= *)
(** ** Scenarios *)

(** [defaultJSONSchemaOptions], with no custom scalar schemas. *)
Definition defaultJSONSchemaOptions : JSONSchemaOptions :=
  {| useMarkdownDescription := false; customScalarSchemas := [] |}.

Definition GraphQLID : GraphQLInputType :=
  GraphQLScalarType "ID" (Some "The ID scalar type.").

(** [input Filter { self: Filter }]. *)
Definition filterSchema : Schema :=
  [("Filter",
    {| io_description := None;
       io_fields :=
         [{| field_name := "self";
             field_description := None;
             field_type := GraphQLInputObjectType "Filter";
             field_defaultValue := None |}] |})].

(** A custom scalar whose override refers to a schema elsewhere. *)
Definition urlOptions : JSONSchemaOptions :=
  {| useMarkdownDescription := false;
     customScalarSchemas :=
       [("Url", [("$ref", JString "https://example.com/url.json")])] |}.

(** A custom scalar whose override has a reference and alternatives. *)
Definition bothOptions : JSONSchemaOptions :=
  {| useMarkdownDescription := false;
     customScalarSchemas :=
       [("Both",
         [("$ref", JString "#/definitions/Elsewhere");
          ("oneOf", JArray [JObject [("type", JString "string")]])])] |}.

(** A custom scalar whose override admits [null] itself. *)
Definition maybeOptions : JSONSchemaOptions :=
  {| useMarkdownDescription := false;
     customScalarSchemas :=
       [("Maybe", [("type", JArray [JString "string"; JString "null"])])] |}.

(** Markdown descriptions, and a custom scalar whose override has neither
    type tags nor alternatives but a description. *)
Definition tagOptions : JSONSchemaOptions :=
  {| useMarkdownDescription := true;
     customScalarSchemas :=
       [("Tag",
         [("format", JString "tag"); ("description", JString "A tag.")])] |}.

Definition markdownOptions : JSONSchemaOptions :=
  {| useMarkdownDescription := true; customScalarSchemas := [] |}.

(** The table of [scalarTypesMap], entry by entry. *)
Definition builtinScalars : list (string * string) :=
  [("Int", "integer"); ("String", "string"); ("Float", "number");
   ("ID", "string"); ("Boolean", "boolean"); ("DateTime", "string")].

(** The keys that the aggregator and the synthesizer write into the
    objects of a document. *)
Definition vocabulary (options : JSONSchemaOptions) : list string :=
  ["$schema"; "type"; "properties"; "required"; "definitions"; "default";
   "enum"; "items"; "oneOf"; "$ref"; "description"]
  ++ (if useMarkdownDescription options then ["markdownDescription"]
      else []).

(** Neither the object nor a fragment within it has the member [k]. *)
Definition without (k : string) (o : Obj) : Prop :=
  allFragments (lacks k) (JObject o).

(** Names as GraphQL has them start with a letter or an underscore.
    JavaScript enumerates the properties of such names in the order of
    their insertion; integer-like names, which start with a digit, it
    enumerates first. *)
Definition startsWithDigit (name : string) : bool :=
  match name with
  | String c _ => Nat.leb 48 (nat_of_ascii c) && Nat.leb (nat_of_ascii c) 57
  | EmptyString => false
  end.

Definition insertionOrdered (names : list string) : Prop :=
  Forall (fun name => startsWithDigit name = false) names.

(** The names that become properties of an object literal when they are
    assigned to in turn: all but [__proto__]. *)
Definition ownNames (names : list string) : list string :=
  filter (fun name => negb (name =? "__proto__")) names.

(** The names of the non-null ones among named types. *)
Definition nonNullNames {A : Type} (name : A -> string)
  (type : A -> GraphQLInputType) (entries : list A) : list JSON :=
  map (fun e => JString (name e))
    (filter (fun e => isNonNullType (type e)) entries).

(** [input Node { next: Edge!, label: String = "x" }] and
    [input Edge { to: Node }]. *)
Definition nodeFields : list GraphQLInputField :=
  [{| field_name := "next";
      field_description := Some "The edge out.";
      field_type := GraphQLNonNull (GraphQLInputObjectType "Edge");
      field_defaultValue := None |};
   {| field_name := "label";
      field_description := None;
      field_type := GraphQLScalarType "String" None;
      field_defaultValue := Some (JString "x") |}].

Definition graphSchema : Schema :=
  [("Node", {| io_description := Some "A node."; io_fields := nodeFields |});
   ("Edge",
    {| io_description := None;
       io_fields :=
         [{| field_name := "to";
             field_description := None;
             field_type := GraphQLInputObjectType "Node";
             field_defaultValue := None |}] |})].

(** A custom scalar whose override has a description that is no string
    and cannot be converted to one. *)
Definition stampOptions : JSONSchemaOptions :=
  {| useMarkdownDescription := false;
     customScalarSchemas :=
       [("Stamp",
         [("type", JString "string");
          ("description", JObject [("toString", JNull)])])] |}.

(** An override for a built-in scalar, and one whose [oneOf] is no array. *)
Definition strayOptions : JSONSchemaOptions :=
  {| useMarkdownDescription := false;
     customScalarSchemas :=
       [("Int", [("type", JString "string")]);
        ("Odd", [("oneOf", JString "either")])] |}.

(* ================================================================= *)
(** ** Objects: reading after writing *)

Lemma obj_get_set (k k' : string) (v : JSON) (o : Obj) :
  obj_get k' (obj_set k v o) = if k =? k' then Some v else obj_get k' o.
Proof.
  induction o as [|[k0 v0] rest IH]; simpl.
  - reflexivity.
  - destruct (k0 =? k) eqn:E0; simpl.
    + apply String.eqb_eq in E0; subst k0.
      destruct (k =? k'); reflexivity.
    + destruct (k0 =? k') eqn:E1.
      * apply String.eqb_eq in E1; subst k0.
        rewrite String.eqb_sym, E0. reflexivity.
      * exact IH.
Qed.

Lemma obj_get_set_same (k : string) (v : JSON) (o : Obj) :
  obj_get k (obj_set k v o) = Some v.
Proof. rewrite obj_get_set, String.eqb_refl. reflexivity. Qed.

Lemma obj_get_In (k : string) (v : JSON) (o : Obj) :
  obj_get k o = Some v -> In (k, v) o.
Proof.
  induction o as [|[k0 v0] rest IH]; simpl; [discriminate|].
  destruct (k0 =? k) eqn:E.
  - apply String.eqb_eq in E. intros [= ->]. left; congruence.
  - auto.
Qed.

Lemma obj_get_None (k : string) (o : Obj) :
  obj_get k o = None <-> ~ In k (obj_keys o).
Proof.
  induction o as [|[k0 v0] rest IH]; simpl.
  - tauto.
  - destruct (k0 =? k) eqn:E.
    + apply String.eqb_eq in E. split; [discriminate | intros H; exfalso; auto].
    + apply String.eqb_neq in E. rewrite IH. tauto.
Qed.

Lemma In_obj_set (k k' : string) (v x : JSON) (o : Obj) :
  In (k', x) (obj_set k v o) -> (k', x) = (k, v) \/ In (k', x) o.
Proof.
  induction o as [|[k0 v0] rest IH]; simpl.
  - intros [H|[]]; auto.
  - destruct (k0 =? k); simpl; intros [H|H]; auto.
    destruct (IH H); auto.
Qed.

Lemma obj_set_fresh (k : string) (v : JSON) (o : Obj) :
  ~ In k (obj_keys o) -> obj_set k v o = o ++ [(k, v)].
Proof.
  induction o as [|[k0 v0] rest IH]; simpl; intros H.
  - reflexivity.
  - destruct (k0 =? k) eqn:E.
    + apply String.eqb_eq in E. exfalso; auto.
    + rewrite IH; auto.
Qed.

Lemma obj_keys_set (k k' : string) (v : JSON) (o : Obj) :
  In k' (obj_keys (obj_set k v o)) <-> k' = k \/ In k' (obj_keys o).
Proof.
  induction o as [|[k0 v0] rest IH]; simpl.
  - intuition congruence.
  - destruct (k0 =? k) eqn:E; simpl.
    + apply String.eqb_eq in E. subst. intuition congruence.
    + rewrite IH. intuition congruence.
Qed.

Lemma In_obj_spread (a b : Obj) (k : string) (x : JSON) :
  In (k, x) (obj_spread a b) -> In (k, x) a \/ In (k, x) b.
Proof.
  unfold obj_spread. revert a.
  induction b as [|[k0 v0] rest IH]; simpl; intros a H; auto.
  apply IH in H. destruct H as [H|H]; auto.
  apply In_obj_set in H. destruct H as [H|H]; auto.
Qed.

Lemma obj_keys_spread (a b : Obj) (k : string) :
  In k (obj_keys (obj_spread a b)) <-> In k (obj_keys a) \/ In k (obj_keys b).
Proof.
  unfold obj_spread. revert a.
  induction b as [|[k0 v0] rest IH]; simpl; intros a.
  - tauto.
  - rewrite IH, obj_keys_set. intuition congruence.
Qed.

(** Copying into an object that has none of the keys appends. *)
Lemma obj_spread_fresh (a b : Obj) :
  NoDup (obj_keys b) ->
  (forall k, In k (obj_keys b) -> ~ In k (obj_keys a)) ->
  obj_spread a b = a ++ b.
Proof.
  unfold obj_spread. revert a.
  induction b as [|[k0 v0] rest IH]; simpl; intros a ND H.
  - now rewrite app_nil_r.
  - inversion ND as [|? ? Hk ND']; subst.
    rewrite obj_set_fresh by auto.
    rewrite IH; auto.
    + now rewrite <- app_assoc.
    + intros k Hin. unfold obj_keys. rewrite map_app, in_app_iff. simpl.
      intros [H1|[H1|[]]].
      * exact (H k (or_intror Hin) H1).
      * subst. auto.
Qed.

Lemma obj_spread_nil (b : Obj) :
  NoDup (obj_keys b) -> obj_spread [] b = b.
Proof. intros ND. rewrite obj_spread_fresh; auto. Qed.

(* ================================================================= *)
(** ** The marker *)

Lemma marked_In (name : string) (set : Marker) :
  marked name set = true <-> In name set.
Proof.
  unfold marked. rewrite existsb_exists. split.
  - intros (x & Hx & E). apply String.eqb_eq in E. now subst.
  - intros H. exists name. split; [assumption | apply String.eqb_refl].
Qed.

Lemma marked_not_In (name : string) (set : Marker) :
  marked name set = false <-> ~ In name set.
Proof.
  rewrite <- marked_In. destruct (marked name set); split; congruence.
Qed.

(* ================================================================= *)
(** ** Where the description block cannot throw *)

Lemma describable_plain (isNonNull : bool) (def : Obj) :
  obj_get "description" def = None -> describable isNonNull def = true.
Proof.
  intros H. unfold describable, truthyMember. rewrite H.
  apply orb_true_r.
Qed.

Lemma describable_field (isNonNull : bool) (f : GraphQLInputField) :
  describable isNonNull (defaultBlock (OfField f) []) = true.
Proof.
  apply describable_plain. simpl.
  destruct (field_defaultValue f); reflexivity.
Qed.

Lemma describable_reference (name : string) (isNonNull context : bool) :
  describable context (referenceBlock name isNonNull []) = true.
Proof. apply describable_plain. destruct isNonNull; reflexivity. Qed.

(** Reading and writing through [obj_assign]. *)
Lemma In_obj_assign (k k' : string) (v x : JSON) (o : Obj) :
  In (k', x) (obj_assign k v o) -> (k', x) = (k, v) \/ In (k', x) o.
Proof.
  unfold obj_assign. destruct (k =? "__proto__"); [auto|apply In_obj_set].
Qed.

(* ================================================================= *)
(** ** Every returning call is a derivation *)

Section Soundness.

Variable schema : Schema.
Variable options : JSONSchemaOptions.

Ltac bind_ok H x E :=
  match type of H with
  | context [bind ?e _] =>
      lazymatch e with
      | bind _ _ => fail
      | _ => destruct e as [x| |] eqn:E; simpl in H; [|discriminate H..]
      end
  end.

Lemma fieldsLoop_Fields
  (synthesize : TypeOrField -> bool -> Marker -> outcome Synthesis) :
  (forall type isNonNull marker result marker',
      synthesize type isNonNull marker = Ok (result, marker') ->
      exists written,
        Synth schema options type isNonNull marker result marker' written) ->
  forall fields properties requiredFields defs marker
         properties' requiredFields' defs' marker',
    fieldsLoop options synthesize fields properties requiredFields defs
      marker = Ok (properties', requiredFields', defs', marker') ->
    exists written,
      Fields schema options fields properties requiredFields defs marker
        properties' requiredFields' defs' marker' written.
Proof.
  intros Hs fields.
  induction fields as [|field rest IH]; simpl; intros p rq d m p' rq' d' m' H.
  - injection H as <- <- <- <-. eexists. constructor.
  - bind_ok H x E1. destruct x as [ofType m1].
    bind_ok H y E2. destruct y as [ofField m2].
    apply Hs in E1 as [w1 E1]. apply Hs in E2 as [w2 E2].
    apply IH in H as [w3 H].
    eexists. eapply Fields_step; eauto.
Qed.

Lemma getJSONSchemaFromGraphQLType_Synth (fuel : nat) :
  forall type isNonNull marker result marker',
    getJSONSchemaFromGraphQLType schema options fuel type isNonNull marker
    = Ok (result, marker') ->
    exists written,
      Synth schema options type isNonNull marker result marker' written.
Proof.
  induction fuel as [|fuel IH]; intros type isNonNull marker result marker' H;
    [discriminate H|].
  simpl in H.
  destruct type as [[name d|name d values|name|ofType|ofType]|f];
    simpl in H.
  - bind_ok H def E.
    destruct (describable isNonNull def) eqn:D; [|discriminate H].
    injection H as <- <-. eexists. now constructor.
  - rewrite describable_plain in H by reflexivity.
    injection H as <- <-. eexists. constructor.
  - unfold mark in H. destruct (marked name marker) eqn:M; simpl in H.
    + rewrite describable_reference in H.
      injection H as <- <-. eexists. now constructor.
    + bind_ok H x E. destruct x as [[[p rq] d] m]. simpl in H.
      rewrite describable_reference in H.
      injection H as <- <-.
      apply (fieldsLoop_Fields _ IH) in E as [w E].
      eexists. apply Synth_expand; eauto.
  - bind_ok H x E. destruct x as [inner m]. simpl in H.
    rewrite describable_plain in H by reflexivity.
    injection H as <- <-. apply IH in E as [w E].
    eexists. constructor. eauto.
  - bind_ok H x E. destruct x as [inner m]. simpl in H.
    destruct (describable isNonNull (definition inner)) eqn:D;
      [|discriminate H].
    injection H as <- <-. apply IH in E as [w E].
    eexists. constructor; eauto.
  - pose proof (describable_field isNonNull f) as D. simpl in D.
    rewrite D in H. injection H as <- <-. eexists. constructor.
Qed.

Lemma variablesLoop_Variables :
  forall entries properties requiredVariables defs marker
         properties' requiredVariables' defs' marker',
    variablesLoop schema options entries properties requiredVariables defs
      marker = Ok (properties', requiredVariables', defs', marker') ->
    exists written,
      Variables schema options entries properties requiredVariables defs
        marker properties' requiredVariables' defs' marker' written.
Proof.
  induction entries as [|[variableName type] rest IH]; simpl;
    intros p rq d m p' rq' d' m' H.
  - injection H as <- <- <- <-. eexists. constructor.
  - bind_ok H x E. destruct x as [result m1].
    apply getJSONSchemaFromGraphQLType_Synth in E as [w1 E].
    apply IH in H as [w2 H].
    eexists. eapply Variables_step; eauto.
Qed.

(** What [getVariablesJSONSchema] returns is the document of a run of the
    loop from nothing. *)
Lemma getVariablesJSONSchema_inv variableToType doc :
  getVariablesJSONSchema schema options variableToType = Ok doc ->
  exists properties requiredVariables defs marker written,
    variablesLoop schema options variableToType [] [] None []
    = Ok (properties, requiredVariables, defs, marker) /\
    Variables schema options variableToType [] [] None []
      properties requiredVariables defs marker written /\
    doc = document properties requiredVariables defs.
Proof.
  unfold getVariablesJSONSchema. intros H.
  bind_ok H x E. destruct x as [[[p rq] d] m]. injection H as <-.
  destruct (variablesLoop_Variables _ _ _ _ _ _ _ _ _ E) as [w HV].
  exists p, rq, d, m, w. split; [reflexivity|].
  split; [assumption|reflexivity].
Qed.

End Soundness.

(** *** The budget does not matter to what a call returns *)

Section Deterministic.

Variable schema : Schema.
Variable options : JSONSchemaOptions.

Lemma Synth_Fields_deterministic :
  (forall type isNonNull marker result marker' written,
      Synth schema options type isNonNull marker result marker' written ->
      forall result0 marker0 written0,
        Synth schema options type isNonNull marker result0 marker0 written0 ->
        result = result0 /\ marker' = marker0 /\ written = written0) /\
  (forall fields properties requiredFields defs marker
          properties' requiredFields' defs' marker' written,
      Fields schema options fields properties requiredFields defs marker
        properties' requiredFields' defs' marker' written ->
      forall properties0 requiredFields0 defs0 marker0 written0,
        Fields schema options fields properties requiredFields defs marker
          properties0 requiredFields0 defs0 marker0 written0 ->
        properties' = properties0 /\ requiredFields' = requiredFields0 /\
        defs' = defs0 /\ marker' = marker0 /\ written = written0).
Proof.
  apply Synth_Fields_mutind; intros.
  - inversion H; subst. auto.
  - inversion H; subst. auto.
  - inversion H1; subst. split; [|auto]. congruence.
  - inversion H1; subst.
    match goal with
    | Hs : Synth _ _ (OfType ofType) false marker _ _ _ |- _ =>
        destruct (H0 _ _ _ Hs) as (-> & -> & ->)
    end. auto.
  - inversion H2; subst.
    match goal with
    | Hs : Synth _ _ (OfType ofType) true marker _ _ _ |- _ =>
        destruct (H0 _ _ _ Hs) as (-> & -> & ->)
    end. auto.
  - inversion H0; subst; [auto|congruence].
  - inversion H2; subst; [congruence|].
    match goal with
    | Hf : Fields _ _ _ _ _ _ _ _ _ _ _ _ |- _ =>
        destruct (H1 _ _ _ _ _ Hf) as (-> & -> & -> & -> & ->)
    end. auto.
  - inversion H; subst. repeat split.
  - inversion H5; subst.
    match goal with
    | Hs : Synth _ _ (OfType (field_type field)) false marker _ _ _ |- _ =>
        destruct (H0 _ _ _ Hs) as (-> & -> & ->)
    end.
    match goal with
    | Hs : Synth _ _ (OfField field) false _ _ _ _ |- _ =>
        destruct (H2 _ _ _ Hs) as (-> & -> & ->)
    end.
    match goal with
    | Hf : Fields _ _ rest _ _ _ _ _ _ _ _ _ |- _ =>
        destruct (H4 _ _ _ _ _ Hf) as (-> & -> & -> & -> & ->)
    end. repeat split.
Qed.

Lemma getJSONSchemaFromGraphQLType_budget
  fuel fuel0 type isNonNull marker synthesis synthesis0 :
  getJSONSchemaFromGraphQLType schema options fuel type isNonNull marker
  = Ok synthesis ->
  getJSONSchemaFromGraphQLType schema options fuel0 type isNonNull marker
  = Ok synthesis0 ->
  synthesis = synthesis0.
Proof.
  destruct synthesis as [r m], synthesis0 as [r0 m0]. intros H H0.
  apply getJSONSchemaFromGraphQLType_Synth in H as [w H].
  apply getJSONSchemaFromGraphQLType_Synth in H0 as [w0 H0].
  destruct (proj1 Synth_Fields_deterministic _ _ _ _ _ _ H _ _ _ H0)
    as (-> & -> & _).
  reflexivity.
Qed.

End Deterministic.

(* ================================================================= *)
(** ** The marker grows by the names whose definitions are returned *)

Section Registered.

Variable schema : Schema.
Variable options : JSONSchemaOptions.

Lemma extends_refl marker : extends marker marker [].
Proof.
  repeat split; [now rewrite app_nil_r | constructor | intros ? []].
Qed.

Lemma extends_trans m0 m1 m2 new1 new2 :
  extends m0 m1 new1 -> extends m1 m2 new2 ->
  extends m0 m2 (new1 ++ new2).
Proof.
  intros (-> & ND1 & D1) (-> & ND2 & D2). repeat split.
  - now rewrite app_assoc.
  - apply NoDup_app; auto.
    intros x H1 H2. apply (D2 x H2). apply in_or_app; auto.
  - intros x H. apply in_app_or in H as [H|H]; auto.
    intros Hx. apply (D2 x H). apply in_or_app; auto.
Qed.

Lemma extends_incl m m' new name :
  extends m m' new -> In name m -> In name m'.
Proof. intros (-> & _) H. apply in_or_app; auto. Qed.

Lemma extends_new m m' new name :
  extends m m' new -> In name new -> In name m'.
Proof. intros (-> & _) H. apply in_or_app; auto. Qed.

Lemma extends_same m new : extends m m new -> new = [].
Proof.
  intros (E & _). apply (f_equal (@length _)) in E.
  rewrite length_app in E. destruct new; simpl in E; [reflexivity|lia].
Qed.

Lemma extends_mark name marker :
  marked name marker = false -> extends marker (marker ++ [name]) [name].
Proof.
  intros M. repeat split.
  - repeat constructor. intros [].
  - intros x [<-|[]]. now apply marked_not_In.
Qed.

Lemma copy_definitions defs new :
  Permutation (obj_keys defs) new -> NoDup new -> obj_spread [] defs = defs.
Proof.
  intros HP ND. apply obj_spread_nil.
  eapply Permutation_NoDup; [apply Permutation_sym; eassumption|assumption].
Qed.

Lemma merge_definitions defs more marker marker' new :
  (forall k, In k (obj_keys defs) -> In k marker) ->
  extends marker marker' new ->
  Permutation (obj_keys more) new ->
  obj_spread defs more = defs ++ more /\
  (forall k, In k (obj_keys (defs ++ more)) -> In k marker').
Proof.
  intros Hd He HP. split.
  - apply obj_spread_fresh.
    + eapply Permutation_NoDup;
        [apply Permutation_sym; eassumption | apply He].
    + intros k Hk Hin. destruct He as (_ & _ & D).
      apply (D k); auto. eapply Permutation_in; eauto.
  - intros k Hk. unfold obj_keys in Hk.
    rewrite map_app in Hk. apply in_app_or in Hk as [Hk|Hk].
    + eapply extends_incl; eauto.
    + eapply extends_new; eauto. eapply Permutation_in; eauto.
Qed.

(** A call returns definitions for exactly the names it marks, which are
    the names it has written; the loop over the fields appends such
    definitions to the ones it has. *)
Lemma registered_Synth_Fields :
  (forall type isNonNull marker result marker' written,
      Synth schema options type isNonNull marker result marker' written ->
      exists new, extends marker marker' new /\
                  Permutation (obj_keys (definitions result)) new /\
                  Permutation written new) /\
  (forall fields properties requiredFields defs marker
          properties' requiredFields' defs' marker' written,
      Fields schema options fields properties requiredFields defs marker
        properties' requiredFields' defs' marker' written ->
      (forall k, In k (obj_keys defs) -> In k marker) ->
      exists new added,
        extends marker marker' new /\ defs' = defs ++ added /\
        Permutation (obj_keys added) new /\ Permutation written new).
Proof.
  apply Synth_Fields_mutind; simpl; intros.
  - exists []; split; [apply extends_refl | split; constructor].
  - exists []; split; [apply extends_refl | split; constructor].
  - exists []; split; [apply extends_refl | split; constructor].
  - destruct H0 as (new & He & HP & HW). exists new.
    split; [assumption|]. split; [|assumption].
    erewrite copy_definitions; eauto. apply He.
  - destruct H0 as (new & He & HP & HW). exists new.
    split; [assumption|]. split; [|assumption].
    erewrite copy_definitions; eauto. apply He.
  - exists []; split; [apply extends_refl | split; constructor].
  - destruct H1 as (new & added & He & Hd & HP & HW); [intros k []|].
    simpl in Hd. subst defs.
    exists ([name] ++ new).
    split; [eapply extends_trans; eauto using extends_mark|].
    assert (Hone : forall l, Permutation l new ->
                     Permutation (l ++ [name]) ([name] ++ new)).
    { intros l Hl. apply Permutation_sym, Permutation_cons_app.
      rewrite app_nil_r. now apply Permutation_sym. }
    split; [|now apply Hone].
    rewrite obj_set_fresh.
    + unfold obj_keys. rewrite map_app. simpl. now apply Hone.
    + intros Hin. destruct He as (_ & _ & D).
      apply (D name); [|apply in_or_app; right; now left].
      exact (Permutation_in _ HP Hin).
  - exists [], []. split; [apply extends_refl|].
    split; [now rewrite app_nil_r | split; constructor].
  - destruct H0 as (new1 & He1 & HP1 & HW1).
    destruct H2 as (new2 & He2 & HP2 & HW2).
    assert (marker2 = marker1 /\ written2 = [])
      as [-> ->] by (inversion H1; auto).
    destruct (merge_definitions _ _ _ _ _ H5 He1 HP1) as [Hs Hk].
    rewrite Hs in H4.
    destruct (H4 Hk) as (new3 & added & He3 & Hd & HP3 & HW3).
    exists (new1 ++ new3), (definitions ofType ++ added).
    split; [eapply extends_trans; eauto|].
    split; [now rewrite Hd, app_assoc|].
    split; [|simpl; now apply Permutation_app].
    unfold obj_keys. rewrite map_app.
    now apply Permutation_app.
Qed.

Lemma registered_Variables :
  forall entries properties requiredVariables defs marker
         properties' requiredVariables' defs' marker' written,
    Variables schema options entries properties requiredVariables defs
      marker properties' requiredVariables' defs' marker' written ->
    NoDup (obj_keys (entriesOf defs)) ->
    (forall k, In k (obj_keys (entriesOf defs)) -> In k marker) ->
    exists new added,
      extends marker marker' new /\
      entriesOf defs' = entriesOf defs ++ added /\
      Permutation (obj_keys added) new /\ Permutation written new.
Proof.
  induction 1 as [|variableName type rest p rq defs m result m1 w1 p' rq'
                    defs' m' w' HS HV IH]; intros ND Hk.
  - exists [], []. split; [apply extends_refl|].
    split; [now rewrite app_nil_r | split; constructor].
  - destruct (proj1 registered_Synth_Fields _ _ _ _ _ _ HS)
      as (new1 & He1 & HP1 & HW1).
    fold (entriesOf defs) in IH.
    rewrite (obj_spread_nil _ ND) in IH.
    destruct (merge_definitions _ _ _ _ _ Hk He1 HP1) as [Hs Hk'].
    rewrite Hs in IH. simpl in IH.
    destruct IH as (new2 & added & He2 & Hd & HP2 & HW2); [|assumption|].
    { unfold obj_keys. rewrite map_app. apply NoDup_app.
      - exact ND.
      - apply (Permutation_NoDup (Permutation_sym HP1)), He1.
      - intros k H1 H2. destruct He1 as (_ & _ & D).
        apply (D k); auto. exact (Permutation_in _ HP1 H2). }
    exists (new1 ++ new2), (definitions result ++ added).
    split; [eapply extends_trans; eauto|].
    split; [now rewrite Hd, app_assoc|].
    split; [|now apply Permutation_app].
    unfold obj_keys. rewrite map_app.
    now apply Permutation_app.
Qed.

End Registered.

(* ================================================================= *)
(** ** Termination: the recursion budget is never used up *)

Section Termination.

Variable schema : Schema.
Variable options : JSONSchemaOptions.

Lemma filter_le_filter {A : Type} (f g : A -> bool) (l : list A) :
  (forall x, f x = true -> g x = true) ->
  length (filter f l) <= length (filter g l).
Proof.
  intros Hfg. induction l as [|x l IH]; simpl; [lia|].
  destruct (f x) eqn:F.
  - rewrite (Hfg x F). simpl. lia.
  - destruct (g x); simpl; lia.
Qed.

Lemma filter_lt_filter {A : Type} (f g : A -> bool) (l : list A) (x : A) :
  (forall y, f y = true -> g y = true) ->
  In x l -> f x = false -> g x = true ->
  length (filter f l) < length (filter g l).
Proof.
  intros Hfg. induction l as [|y l IH]; simpl; [intros []|].
  intros [->|Hin] Fx Gx.
  - rewrite Fx, Gx. simpl.
    pose proof (filter_le_filter f g l Hfg). lia.
  - specialize (IH Hin Fx Gx). destruct (f y) eqn:F.
    + rewrite (Hfg y F). simpl. lia.
    + destruct (g y); simpl; lia.
Qed.

Lemma unmarked_le m m' :
  (forall name, In name m -> In name m') ->
  unmarked schema m' <= unmarked schema m.
Proof.
  intros H. apply filter_le_filter. intros x Hx.
  apply negb_true_iff in Hx. apply negb_true_iff.
  apply marked_not_In. apply marked_not_In in Hx. auto.
Qed.

Lemma unmarked_lt name m :
  In name (map fst schema) -> marked name m = false ->
  unmarked schema (m ++ [name]) < unmarked schema m.
Proof.
  intros Hin M. apply (filter_lt_filter _ _ _ name); auto.
  - intros y Hy. apply negb_true_iff in Hy. apply negb_true_iff.
    apply marked_not_In. apply marked_not_In in Hy.
    intros Hm. apply Hy. apply in_or_app; auto.
  - apply negb_false_iff, marked_In, in_or_app. right. now left.
  - now rewrite M.
Qed.

Lemma unmarked_bound m : unmarked schema m <= length schema.
Proof.
  unfold unmarked.
  etransitivity; [apply filter_length_le|]. now rewrite length_map.
Qed.

Lemma lookup_In {A : Type} name (table : list (string * A)) v :
  lookup name table = Some v -> In (name, v) table.
Proof.
  induction table as [|[k x] rest IH]; simpl; [discriminate|].
  destruct (k =? name) eqn:E.
  - apply String.eqb_eq in E. intros [= ->]. left. now subst.
  - auto.
Qed.

Lemma getFields_declared name field :
  In field (getFields schema name) ->
  exists declaration,
    In (name, declaration) schema /\ In field (io_fields declaration).
Proof.
  unfold getFields. destruct (lookup name schema) as [d|] eqn:E; [|intros []].
  intros H. exists d. split; [now apply lookup_In | assumption].
Qed.

Lemma fieldBudget_field name declaration field :
  In (name, declaration) schema -> In field (io_fields declaration) ->
  typeSize (field_type field) < fieldBudget schema.
Proof.
  unfold fieldBudget. intros Hd Hf. apply Nat.lt_succ_r.
  induction schema as [|[n d] rest IH]; simpl; [destruct Hd|].
  assert (mono : forall fields acc,
             acc <= fold_right
               (fun f acc => Nat.max (typeSize (field_type f)) acc)
               acc fields).
  { induction fields as [|f fs IHf]; simpl; intros acc; [lia|].
    specialize (IHf acc). lia. }
  destruct Hd as [[= -> ->]|Hd].
  - clear IH mono. induction (io_fields declaration) as [|f fs IHf];
      simpl; [destruct Hf|].
    destruct Hf as [->|Hf]; [lia|]. specialize (IHf Hf). lia.
  - specialize (IH Hd). etransitivity; [exact IH|]. apply mono.
Qed.

Lemma Synth_marker_incl type isNonNull marker result marker' written name :
  Synth schema options type isNonNull marker result marker' written ->
  In name marker -> In name marker'.
Proof.
  intros HS. destruct (proj1 (registered_Synth_Fields schema options)
                         _ _ _ _ _ _ HS) as (new & He & _).
  now apply (extends_incl _ _ _ _ He).
Qed.

Lemma fieldsLoop_fuel (fuel k : nat) :
  (forall type isNonNull marker,
      unmarked schema marker <= k ->
      callSize type + k * fieldBudget schema <= fuel ->
      getJSONSchemaFromGraphQLType schema options fuel type isNonNull marker
      <> OutOfFuel) ->
  forall fields properties requiredFields defs marker,
    (forall field, In field fields ->
       typeSize (field_type field) + k * fieldBudget schema <= fuel) ->
    unmarked schema marker <= k ->
    fieldsLoop options
      (getJSONSchemaFromGraphQLType schema options fuel) fields properties
      requiredFields defs marker <> OutOfFuel.
Proof.
  intros Hcall fields.
  induction fields as [|field rest IH]; simpl; intros p rq d m Hsize Hm.
  - discriminate.
  - assert (H1 := Hcall (OfType (field_type field)) false m Hm
                    (Hsize field (or_introl eq_refl))).
    destruct (getJSONSchemaFromGraphQLType schema options fuel
                (OfType (field_type field)) false m)
      as [[ofType m1]| |] eqn:E1; simpl; [|discriminate|congruence].
    apply getJSONSchemaFromGraphQLType_Synth in E1 as [w1 E1].
    assert (Hm1 : unmarked schema m1 <= k).
    { etransitivity; [|exact Hm]. apply unmarked_le. intros name.
      eapply Synth_marker_incl; eauto. }
    assert (H2 : getJSONSchemaFromGraphQLType schema options fuel
                   (OfField field) false m1 <> OutOfFuel).
    { apply Hcall; [assumption|]. simpl.
      specialize (Hsize field (or_introl eq_refl)).
      destruct (field_type field); simpl in Hsize; lia. }
    destruct (getJSONSchemaFromGraphQLType schema options fuel
                (OfField field) false m1)
      as [[ofField m2]| |] eqn:E2; simpl; [|discriminate|congruence].
    apply getJSONSchemaFromGraphQLType_Synth in E2 as [w2 E2].
    apply IH.
    + intros f Hf. apply Hsize. now right.
    + etransitivity; [|exact Hm1]. apply unmarked_le. intros name.
      eapply Synth_marker_incl; eauto.
Qed.

Lemma scalarBlock_returns name isNonNull def :
  scalarBlock options name isNonNull def <> OutOfFuel.
Proof.
  unfold scalarBlock, broaden.
  repeat match goal with
         | |- context [match ?x with _ => _ end] => destruct x
         end; discriminate.
Qed.

Lemma guard_returns {A : Type} (b : bool) (a : A) :
  (if b then Ok a else TypeError) <> OutOfFuel.
Proof. destruct b; discriminate. Qed.

Lemma enough_fuel (k : nat) :
  forall type fuel isNonNull marker,
    unmarked schema marker <= k ->
    callSize type + k * fieldBudget schema <= fuel ->
    getJSONSchemaFromGraphQLType schema options fuel type isNonNull marker
    <> OutOfFuel.
Proof.
  induction k as [k IHk] using lt_wf_ind.
  intros [t|f].
  - induction t as [name d|name d values|name|ofType IHt|ofType IHt];
      intros fuel isNonNull marker Hm Hfuel;
      (destruct fuel as [|fuel]; [simpl in Hfuel; lia|]); simpl.
    + pose proof (scalarBlock_returns name isNonNull []).
      destruct (scalarBlock options name isNonNull []); simpl;
        [apply guard_returns|discriminate|congruence].
    + apply guard_returns.
    + unfold mark. destruct (marked name marker) eqn:M; simpl;
        [apply guard_returns|].
      assert (Hloop : fieldsLoop options
                (getJSONSchemaFromGraphQLType schema options fuel)
                (getFields schema name) [] [] [] (marker ++ [name])
              <> OutOfFuel).
      { destruct (getFields schema name) as [|f0 fs] eqn:F;
          [simpl; discriminate|].
        assert (Hdecl : In name (map fst schema)).
        { destruct (getFields_declared name f0) as (d & Hd & _).
          - rewrite F. now left.
          - apply in_map_iff. now exists (name, d). }
        pose proof (unmarked_lt name marker Hdecl M) as Hlt.
        rewrite <- F.
        apply (fieldsLoop_fuel fuel (unmarked schema (marker ++ [name]))).
        - intros type b m Hm' Hf.
          apply (IHk (unmarked schema (marker ++ [name]))); auto. lia.
        - intros field Hf.
          destruct (getFields_declared name field Hf) as (d & Hd & Hfd).
          pose proof (fieldBudget_field name d field Hd Hfd).
          simpl in Hfuel. nia.
        - lia. }
      destruct (fieldsLoop options
                  (getJSONSchemaFromGraphQLType schema options fuel)
                  (getFields schema name) [] [] [] (marker ++ [name]))
        as [[[[p rq] d] m]| |]; simpl;
        [apply guard_returns|discriminate|congruence].
    + specialize (IHt fuel false marker Hm).
      destruct (getJSONSchemaFromGraphQLType schema options fuel
                  (OfType ofType) false marker) as [[inner m]| |];
        simpl; [apply guard_returns|discriminate|].
      apply IHt. simpl in *. lia.
    + specialize (IHt fuel true marker Hm).
      destruct (getJSONSchemaFromGraphQLType schema options fuel
                  (OfType ofType) true marker) as [[inner m]| |];
        simpl; [apply guard_returns|discriminate|].
      apply IHt. simpl in *. lia.
  - intros fuel isNonNull marker Hm Hfuel.
    destruct fuel as [|fuel]; [simpl in Hfuel; lia|]. simpl.
    apply guard_returns.
Qed.

End Termination.

(* ================================================================= *)
(** ** Every reachable input object type is marked *)

Section Reachability.

Variable schema : Schema.
Variable options : JSONSchemaOptions.

Lemma settled_Synth_Fields :
  (forall type isNonNull marker result marker' written,
      Synth schema options type isNonNull marker result marker' written ->
      forall pending, settled schema marker pending ->
        settled schema marker' pending /\
        forall t name, type = OfType t -> inputObjectOf t = Some name ->
                       In name marker') /\
  (forall fields properties requiredFields defs marker
          properties' requiredFields' defs' marker' written,
      Fields schema options fields properties requiredFields defs marker
        properties' requiredFields' defs' marker' written ->
      forall pending, settled schema marker pending ->
        settled schema marker' pending /\
        (forall name, In name marker -> In name marker') /\
        forall field name, In field fields ->
          inputObjectOf (field_type field) = Some name ->
          In name marker').
Proof.
  apply Synth_Fields_mutind; intros.
  - split; [assumption|]. intros t n [=].
  - split; [assumption|]. intros t n [= <-]. discriminate.
  - split; [assumption|]. intros t n [= <-]. discriminate.
  - destruct (H0 pending H1) as [Hs Hn]. split; [assumption|].
    intros t n [= <-]. simpl. eauto.
  - destruct (H0 pending H2) as [Hs Hn]. split; [assumption|].
    intros t n [= <-]. simpl. eauto.
  - split; [assumption|]. intros t n [= <-] [= <-]. now apply marked_In.
  - destruct (H1 (name :: pending)) as (Hs & Hincl & Hf).
    { intros owner field n Ho Hp Hin Hn.
      apply in_app_or in Ho as [Ho|[<-|[]]]; [|exfalso; apply Hp; now left].
      apply in_or_app. left.
      apply (H2 owner field n); auto. intros Hq. apply Hp. now right. }
    assert (Hname : In name marker')
      by (apply Hincl, in_or_app; right; now left).
    split.
    + intros owner field n Ho Hp Hin Hn.
      destruct (string_dec owner name) as [->|Hne].
      * eapply Hf; eauto.
      * apply (Hs owner field n); auto. intros [E|Hq]; auto.
    + intros t n [= <-] [= <-]. assumption.
  - split; [assumption|]. split; [auto|]. intros field name [].
  - destruct (H0 pending H5) as [Hs1 Hn1].
    assert (marker2 = marker1) by (inversion H1; reflexivity).
    subst marker2.
    destruct (H4 pending Hs1) as (Hs3 & Hincl3 & Hf3).
    pose proof (fun name => Synth_marker_incl _ _ _ _ _ _ _ _ name H)
      as Hincl1.
    split; [assumption|]. split; [auto|].
    intros f n [<-|Hin] Hn; eauto.
Qed.

Lemma settled_reaches marker :
  settled schema marker [] ->
  forall type name,
    reaches schema type name ->
    (forall k, inputObjectOf type = Some k -> In k marker) ->
    In name marker.
Proof.
  intros Hs type name H.
  induction H as [name|ofType name H IH|ofType name H IH
                 |owner field name Hin H IH]; intros Hk.
  - now apply Hk.
  - apply IH. exact Hk.
  - apply IH. exact Hk.
  - apply IH. intros k Hf.
    apply (Hs owner field k); auto.
Qed.

Lemma settled_Variables :
  forall entries properties requiredVariables defs marker
         properties' requiredVariables' defs' marker' written,
    Variables schema options entries properties requiredVariables defs
      marker properties' requiredVariables' defs' marker' written ->
    settled schema marker [] ->
    settled schema marker' [] /\
    (forall name, In name marker -> In name marker') /\
    forall variableName type name,
      In (variableName, type) entries ->
      inputObjectOf type = Some name -> In name marker'.
Proof.
  induction 1 as [|variableName type rest p rq defs m result m1 w1 p' rq'
                    defs' m' w' HS HV IH]; intros Hs.
  - split; [assumption|]. split; [auto|]. intros v t n [].
  - destruct (proj1 settled_Synth_Fields _ _ _ _ _ _ HS [] Hs) as [Hs1 Hn1].
    destruct (IH Hs1) as (Hs' & Hincl & Hrest).
    pose proof (fun name => Synth_marker_incl _ _ _ _ _ _ _ _ name HS)
      as Hincl1.
    split; [assumption|]. split; [auto|].
    intros v t n [[= <- <-]|Hin] Hn; eauto.
Qed.

End Reachability.

(* ================================================================= *)
(** ** Fragments of the objects that the synthesizer builds *)

Section Fragments.

Variable P : JSON -> Prop.
Hypothesis P_objects : aboutObjects P.

Lemma allFragments_object o :
  P (JObject o) -> allInside P o -> allFragments P (JObject o).
Proof.
  intros Htop Hin s Hs. inversion Hs; subst; [assumption|].
  eapply Hin; eauto.
Qed.

Lemma allFragments_top s : allFragments P s -> P s.
Proof. intros H. apply H. constructor. Qed.

Lemma allFragments_inside o : allFragments P (JObject o) -> allInside P o.
Proof.
  intros H c Hc s Hs. apply H. econstructor; eauto.
Qed.

Lemma allFragments_atom s :
  (forall o, s <> JObject o) -> allFragments P s.
Proof.
  intros Hs x Hx. inversion Hx; subst.
  - now apply P_objects.
  - match goal with H : subschema _ _ |- _ => inversion H; subst end;
      exfalso; eapply Hs; reflexivity.
Qed.

Lemma subschema_members o o1 o2 c :
  (forall k x, In (k, x) o -> In (k, x) o1 \/ In (k, x) o2) ->
  subschema (JObject o) c ->
  subschema (JObject o1) c \/ subschema (JObject o2) c.
Proof.
  intros Hsub H. inversion H; subst;
    match goal with Hm : In (_, _) o |- _ => apply Hsub in Hm as [Hm|Hm] end;
    [left|right|left|right|left|right];
    eauto using subschema_single, subschema_array, subschema_map.
Qed.

Lemma allInside_members o o1 o2 :
  (forall k x, In (k, x) o -> In (k, x) o1 \/ In (k, x) o2) ->
  allInside P o1 -> allInside P o2 -> allInside P o.
Proof.
  intros Hsub H1 H2 c Hc.
  destruct (subschema_members o o1 o2 c Hsub Hc); auto.
Qed.

Lemma allInside_nil : allInside P [].
Proof. intros c Hc. inversion Hc; subst; contradiction. Qed.

Lemma allInside_set k v o :
  allInside P [(k, v)] -> allInside P o -> allInside P (obj_set k v o).
Proof.
  intros Hv Ho. apply (allInside_members _ [(k, v)] o); auto.
  intros k' x H. apply In_obj_set in H as [H|H]; [left; now left | now right].
Qed.

Lemma allInside_spread a b :
  allInside P a -> allInside P b -> allInside P (obj_spread a b).
Proof.
  intros Ha Hb. apply (allInside_members _ a b); auto.
  intros k x. apply In_obj_spread.
Qed.

Lemma allInside_app a b :
  allInside P a -> allInside P b -> allInside P (a ++ b).
Proof.
  intros Ha Hb. apply (allInside_members _ a b); auto.
  intros k x. apply in_app_or.
Qed.

Lemma allInside_cons k v o :
  allInside P [(k, v)] -> allInside P o -> allInside P ((k, v) :: o).
Proof. intros Hv Ho. now apply (allInside_app [(k, v)] o). Qed.

Ltac only_member :=
  match goal with
  | Hm : In (_, _) [_] |- _ =>
      destruct Hm as [Hm|[]]; inversion Hm; subst
  end.

Ltac not_keyword :=
  match goal with
  | Hk : In _ _ |- _ => solve [simpl in Hk; intuition discriminate]
  end.

(** A member under a key that is no keyword for schemas. *)
Lemma allInside_plain k v :
  ~ In k schemaKeywords -> ~ In k schemaArrayKeywords ->
  ~ In k schemaMapKeywords -> allInside P [(k, v)].
Proof.
  intros H1 H2 H3 c Hc. inversion Hc; subst; only_member; contradiction.
Qed.

Lemma allInside_items o :
  allFragments P (JObject o) -> allInside P [("items", JObject o)].
Proof.
  intros H c Hc. inversion Hc; subst; only_member.
  - assumption.
  - not_keyword.
Qed.

Lemma allInside_oneOf v :
  (forall elements c, v = JArray elements -> In c elements ->
                      allFragments P c) ->
  allInside P [("oneOf", v)].
Proof.
  intros H c Hc. inversion Hc; subst; only_member.
  - not_keyword.
  - eauto.
  - not_keyword.
Qed.

Lemma allInside_map k entries :
  ~ In k schemaKeywords -> ~ In k schemaArrayKeywords ->
  allEntries P entries -> allInside P [(k, JObject entries)].
Proof.
  intros H1 H2 H c Hc. inversion Hc; subst; only_member;
    try contradiction.
  eapply H; eauto.
Qed.

Lemma allEntries_nil : allEntries P [].
Proof. intros name d []. Qed.

Lemma allEntries_set name d entries :
  allFragments P d -> allEntries P entries ->
  allEntries P (obj_set name d entries).
Proof.
  intros Hd He n x H. apply In_obj_set in H as [[= -> ->]|H]; eauto.
Qed.

Lemma allEntries_assign name d entries :
  allFragments P d -> allEntries P entries ->
  allEntries P (obj_assign name d entries).
Proof.
  intros Hd He n x H. apply In_obj_assign in H as [[= -> ->]|H]; eauto.
Qed.

Lemma allEntries_spread a b :
  allEntries P a -> allEntries P b -> allEntries P (obj_spread a b).
Proof.
  intros Ha Hb n x H. apply In_obj_spread in H as [H|H]; eauto.
Qed.

(** The alternatives of a fragment are fragments. *)
Lemma allFragments_alternative o elements c :
  allFragments P (JObject o) ->
  In ("oneOf", JArray elements) o -> In c elements -> allFragments P c.
Proof.
  intros H Hm Hc. apply (allFragments_inside o H).
  eapply subschema_array; eauto. simpl. tauto.
Qed.

End Fragments.

(* ================================================================= *)
(** ** References point at marked names *)

Section References.

Variable schema : Schema.
Variable options : JSONSchemaOptions.

(** No override brings a reference of its own. *)
Hypothesis overrides_without_refs :
  forall name custom,
    In (name, custom) (customScalarSchemas options) ->
    allFragments (lacks "$ref") (JObject custom).

Lemma refsInto_objects names : aboutObjects (refsInto names).
Proof. intros s Hs o ref ->. exfalso. eapply Hs; reflexivity. Qed.

Lemma refsInto_more names names' s :
  (forall name, In name names -> In name names') ->
  refsInto names s -> refsInto names' s.
Proof.
  intros Hincl H o ref Ho Hin.
  destruct (H o ref Ho Hin) as (name & -> & Hname).
  exists name. auto.
Qed.

Lemma good_more names names' s :
  (forall name, In name names -> In name names') ->
  allFragments (refsInto names) s -> allFragments (refsInto names') s.
Proof. intros Hincl H x Hx. eapply refsInto_more; eauto. Qed.

Lemma allEntries_more names names' entries :
  (forall name, In name names -> In name names') ->
  allEntries (refsInto names) entries ->
  allEntries (refsInto names') entries.
Proof. intros Hincl H n d Hd. eapply good_more; eauto. Qed.

Lemma lacks_refsInto names s :
  allFragments (lacks "$ref") s -> allFragments (refsInto names) s.
Proof.
  intros H x Hx o ref -> Hin. exfalso. exact (H _ Hx o ref eq_refl Hin).
Qed.

(** Goodness goes member by member. *)
Lemma good_members names o o1 o2 :
  (forall k x, In (k, x) o -> In (k, x) o1 \/ In (k, x) o2) ->
  good names o1 -> good names o2 -> good names o.
Proof.
  intros Hsub H1 H2. apply allFragments_object.
  - intros o' ref [= <-] Hin.
    destruct (Hsub _ _ Hin) as [Hm|Hm].
    + exact (allFragments_top _ _ H1 o1 ref eq_refl Hm).
    + exact (allFragments_top _ _ H2 o2 ref eq_refl Hm).
  - eapply allInside_members; eauto using allFragments_inside.
Qed.

Lemma good_nil names : good names [].
Proof.
  apply allFragments_object; [|apply allInside_nil].
  intros o ref [= <-] [].
Qed.

Lemma good_set names k v o :
  good names [(k, v)] -> good names o -> good names (obj_set k v o).
Proof.
  intros Hv Ho. apply (good_members _ _ [(k, v)] o); auto.
  intros k' x H. apply In_obj_set in H as [H|H]; [left; now left | now right].
Qed.

Lemma good_spread names a b :
  good names a -> good names b -> good names (obj_spread a b).
Proof.
  intros Ha Hb. apply (good_members _ _ a b); auto.
  intros k x. apply In_obj_spread.
Qed.

Lemma good_cons names k v o :
  good names [(k, v)] -> good names o -> good names ((k, v) :: o).
Proof.
  intros Hv Ho. apply (good_members _ _ [(k, v)] o); auto.
  intros k' x [H|H]; [left; now left | now right].
Qed.

Lemma good_one names k v :
  k <> "$ref" -> allInside (refsInto names) [(k, v)] -> good names [(k, v)].
Proof.
  intros Hk Hin. apply allFragments_object; [|assumption].
  intros o ref [= <-] [[= -> ->]|[]]. contradiction.
Qed.

Ltac plain_key :=
  apply good_one; [discriminate|];
  apply allInside_plain; simpl; intuition discriminate.

Ltac goodness :=
  repeat first
    [ apply good_nil
    | assumption
    | plain_key
    | apply good_set
    | apply good_spread
    | match goal with |- good _ (_ :: _ :: _) => apply good_cons end ].

Lemma good_ref names name :
  In name names -> good names [("$ref", refTo name)].
Proof.
  intros Hin. apply allFragments_object.
  - intros o ref [= <-] [[= <-]|[]]. now exists name.
  - apply allInside_plain; simpl; intuition discriminate.
Qed.

Lemma good_nullSchema names :
  allFragments (refsInto names) nullSchema.
Proof. unfold nullSchema. plain_key. Qed.

Lemma good_oneOf names v :
  (forall elements c, v = JArray elements -> In c elements ->
                      allFragments (refsInto names) c) ->
  good names [("oneOf", v)].
Proof.
  intros H. apply good_one; [discriminate|]. now apply allInside_oneOf.
Qed.

Lemma good_alternative names o elements c :
  good names o -> obj_get "oneOf" o = Some (JArray elements) ->
  In c elements -> allFragments (refsInto names) c.
Proof.
  intros Ho Hget Hc. apply obj_get_In in Hget.
  eapply allFragments_alternative; eauto.
Qed.

Lemma good_describe names type def :
  good names def -> good names (describe schema options type def).
Proof.
  intros H. unfold describe.
  destruct (ownDescription schema _), (truthyMember "description" def),
    (useMarkdownDescription options);
    repeat (apply good_set; [plain_key|]); assumption.
Qed.

Lemma good_finish names type isNonNull def isRequired defs :
  good names def ->
  good names (definition (finish schema options type isNonNull def
                            isRequired defs)).
Proof.
  intros H. simpl. destruct isNonNull; [assumption|].
  now apply good_describe.
Qed.

Lemma good_broaden names def def' :
  good names def -> broaden def = Ok def' -> good names def'.
Proof.
  intros H. unfold broaden.
  assert (Hwrap : good names [("oneOf", JArray [JObject def; nullSchema])]).
  { apply good_oneOf. intros els c [= <-] [<-|[<-|[]]];
      [assumption | apply good_nullSchema]. }
  assert (Hvia : forall r,
    match obj_get "oneOf" def with
    | Some (JArray alternatives) =>
        Ok (obj_set "oneOf" (JArray (alternatives ++ [nullSchema])) def)
    | Some v =>
        if truthy v then TypeError
        else Ok [("oneOf", JArray [JObject def; nullSchema])]
    | None => Ok [("oneOf", JArray [JObject def; nullSchema])]
    end = Ok r -> good names r).
  { intros r. destruct (obj_get "oneOf" def) as [v|] eqn:E;
      [|intros [= <-]; exact Hwrap].
    destruct v; try (destruct (truthy _); [discriminate|]);
      try (intros [= <-]; exact Hwrap).
    intros [= <-]. apply good_set; [|assumption].
    apply good_oneOf. intros els c [= <-] Hc.
    apply in_app_or in Hc as [Hc|[<-|[]]].
    - exact (good_alternative _ _ _ _ H E Hc).
    - apply good_nullSchema. }
  destruct (obj_get "type" def) as [v|] eqn:E; [|apply Hvia].
  destruct v; try (destruct (truthy _) eqn:T; [|apply Hvia]);
    try apply Hvia; intros [= <-]; (apply good_set; [plain_key|assumption]).
Qed.

Lemma good_scalarBlock names name isNonNull def :
  scalarBlock options name isNonNull [] = Ok def -> good names def.
Proof.
  unfold scalarBlock. destruct (scalarTypesMap name).
  - destruct isNonNull; intros [= <-]; goodness.
  - assert (H : good names
              (match lookup name (customScalarSchemas options) with
               | Some custom => custom
               | None => obj_set "type" anyScalar []
               end)).
    { destruct (lookup name (customScalarSchemas options)) eqn:E.
      - apply lacks_refsInto. apply lookup_In in E.
        eapply overrides_without_refs; eauto.
      - goodness. }
    destruct isNonNull; [intros [= <-]; exact H|].
    now apply good_broaden.
Qed.

Lemma good_listItems names def :
  good names def -> good names (listItems def).
Proof.
  intros H. unfold listItems, truthyMember.
  destruct (obj_get "$ref" def) as [r|] eqn:R;
    [destruct (truthy r)|].
  - apply obj_get_In in R.
    apply allFragments_object;
      [|apply allInside_plain; simpl; intuition discriminate].
    intros o ref [= <-] [[= <-]|[]].
    exact (allFragments_top _ _ H def r eq_refl R).
  - destruct (obj_get "oneOf" def) as [v|] eqn:O; [|assumption].
    destruct (truthy v); [|assumption].
    apply good_oneOf. intros els c -> Hc.
    exact (good_alternative _ _ _ _ H O Hc).
  - destruct (obj_get "oneOf" def) as [v|] eqn:O; [|assumption].
    destruct (truthy v); [|assumption].
    apply good_oneOf. intros els c -> Hc.
    exact (good_alternative _ _ _ _ H O Hc).
Qed.

Lemma good_referenceBlock names name isNonNull :
  In name names -> good names (referenceBlock name isNonNull []).
Proof.
  intros Hin. unfold referenceBlock. destruct isNonNull; simpl.
  - now apply good_ref.
  - apply good_oneOf. intros els c [= <-] [<-|[<-|[]]].
    + now apply good_ref.
    + apply good_nullSchema.
Qed.

Lemma good_fieldDefOf names name properties requiredFields :
  allEntries (refsInto names) properties ->
  good names (fieldDefOf schema options name properties requiredFields).
Proof.
  intros H. unfold fieldDefOf.
  apply good_cons; [plain_key|].
  apply good_cons.
  { apply good_one; [discriminate|].
    apply allInside_map; simpl; auto; intuition discriminate. }
  apply good_cons; [plain_key|].
  apply good_cons; [plain_key|].
  destruct (useMarkdownDescription options); [plain_key|apply good_nil].
Qed.

Lemma good_fieldProperty names field typeDefinition fieldDefinition :
  good names typeDefinition -> good names fieldDefinition ->
  good names (fieldProperty options field typeDefinition fieldDefinition).
Proof.
  intros Ht Hf. unfold fieldProperty.
  destruct (useMarkdownDescription options);
    repeat (apply good_set; [plain_key|]);
    repeat apply good_spread; auto using good_nil.
Qed.

Lemma good_document names properties requiredVariables defs :
  allEntries (refsInto names) properties ->
  allEntries (refsInto names) (entriesOf defs) ->
  good names (document properties requiredVariables defs).
Proof.
  intros Hp Hd. unfold document.
  apply good_cons; [plain_key|].
  apply good_cons; [plain_key|].
  apply good_cons.
  { apply good_one; [discriminate|].
    apply allInside_map; simpl; auto; intuition discriminate. }
  apply good_cons; [plain_key|].
  destruct defs as [d|]; [|apply good_nil].
  apply good_one; [discriminate|].
  apply allInside_map; simpl; auto; intuition discriminate.
Qed.

Lemma references_Synth_Fields :
  (forall type isNonNull marker result marker' written,
      Synth schema options type isNonNull marker result marker' written ->
      good marker' (definition result) /\
      allEntries (refsInto marker') (definitions result)) /\
  (forall fields properties requiredFields defs marker
          properties' requiredFields' defs' marker' written,
      Fields schema options fields properties requiredFields defs marker
        properties' requiredFields' defs' marker' written ->
      allEntries (refsInto marker) properties ->
      allEntries (refsInto marker) defs ->
      allEntries (refsInto marker') properties' /\
      allEntries (refsInto marker') defs').
Proof.
  apply Synth_Fields_mutind; intros.
  - split; [|apply allEntries_nil]. apply good_finish.
    unfold defaultBlock. destruct (field_defaultValue f);
      [apply good_set; [plain_key|]|]; apply good_nil.
  - split; [|apply allEntries_nil]. apply good_finish.
    apply good_set; [plain_key|apply good_nil].
  - split; [|apply allEntries_nil]. apply good_finish.
    eapply good_scalarBlock; eauto.
  - destruct H0 as [Hd He]. split.
    + apply good_finish. apply good_set.
      * apply good_one; [discriminate|].
        apply allInside_items. now apply good_listItems.
      * apply good_set; [plain_key|apply good_nil].
    + simpl. apply allEntries_spread; auto using allEntries_nil.
  - destruct H0 as [Hd He]. split.
    + now apply good_finish.
    + simpl. apply allEntries_spread; auto using allEntries_nil.
  - split; [|apply allEntries_nil]. apply good_finish.
    apply good_referenceBlock. now apply marked_In.
  - destruct (proj2 (registered_Synth_Fields schema options)
                _ _ _ _ _ _ _ _ _ _ H0) as (new & added & He & _);
      [intros k []|].
    assert (Hname : In name marker').
    { eapply extends_incl; eauto. apply in_or_app. right. now left. }
    destruct H1 as [Hp Hd]; try apply allEntries_nil.
    split.
    + apply good_finish. now apply good_referenceBlock.
    + simpl. apply allEntries_set; [|assumption].
      now apply good_fieldDefOf.
  - split; assumption.
  - destruct H0 as [Hd1 He1]. destruct H2 as [Hd2 He2].
    assert (marker2 = marker1) by (inversion H1; reflexivity).
    subst marker2.
    pose proof (fun name => Synth_marker_incl _ _ _ _ _ _ _ _ name H)
      as Hincl.
    apply H4.
    + apply allEntries_assign.
      * now apply good_fieldProperty.
      * eapply allEntries_more; eauto.
    + apply allEntries_spread; [|assumption].
      eapply allEntries_more; eauto.
Qed.

Lemma references_Variables :
  forall entries properties requiredVariables defs marker
         properties' requiredVariables' defs' marker' written,
    Variables schema options entries properties requiredVariables defs
      marker properties' requiredVariables' defs' marker' written ->
    allEntries (refsInto marker) properties ->
    allEntries (refsInto marker) (entriesOf defs) ->
    allEntries (refsInto marker') properties' /\
    allEntries (refsInto marker') (entriesOf defs').
Proof.
  induction 1 as [|variableName type rest p rq defs m result m1 w1 p' rq'
                    defs' m' w' HS HV IH]; intros Hp Hd.
  - split; assumption.
  - destruct (proj1 references_Synth_Fields _ _ _ _ _ _ HS) as [Hd1 He1].
    pose proof (fun name => Synth_marker_incl _ _ _ _ _ _ _ _ name HS)
      as Hincl.
    apply IH.
    + apply allEntries_assign; [assumption|].
      eapply allEntries_more; eauto.
    + simpl. apply allEntries_spread; [|assumption].
      apply allEntries_spread; [apply allEntries_nil|].
      eapply allEntries_more; eauto.
Qed.

End References.

(* ================================================================= *)
(** ** The aggregator *)

Section Aggregator.

Variable schema : Schema.
Variable options : JSONSchemaOptions.

Lemma fuelFor_enough type marker :
  callSize (OfType type) + unmarked schema marker * fieldBudget schema
  <= fuelFor schema type.
Proof.
  unfold fuelFor. simpl.
  pose proof (unmarked_bound schema marker). nia.
Qed.

Lemma variablesLoop_returns entries :
  forall properties requiredVariables defs marker,
    variablesLoop schema options entries properties requiredVariables defs
      marker <> OutOfFuel.
Proof.
  induction entries as [|[variableName type] rest IH]; simpl;
    intros p rq d m; [discriminate|].
  pose proof (enough_fuel schema options (unmarked schema m) (OfType type)
                (fuelFor schema type) false m (Nat.le_refl _)
                (fuelFor_enough type m)) as H.
  destruct (getJSONSchemaFromGraphQLType schema options
              (fuelFor schema type) (OfType type) false m)
    as [[result m1]| |]; simpl; [apply IH|discriminate|congruence].
Qed.

(** A run of the loop from nothing: what it has written, what it has
    marked and the definitions of the document are the same names, each
    once. *)
Lemma Variables_written variableToType properties requiredVariables defs
  marker written :
  Variables schema options variableToType [] [] None []
    properties requiredVariables defs marker written ->
  NoDup written /\ Permutation written marker /\
  Permutation written (obj_keys (entriesOf defs)) /\
  settled schema marker [] /\
  forall variableName type name,
    In (variableName, type) variableToType ->
    reaches schema type name -> In name marker.
Proof.
  intros HV.
  destruct (registered_Variables schema options _ _ _ _ _ _ _ _ _ _ HV)
    as (new & added & (Em & ND & _) & Ed & HP & HW);
    [constructor | intros k [] |].
  simpl in Em, Ed. subst marker. rewrite Ed.
  destruct (settled_Variables schema options _ _ _ _ _ _ _ _ _ _ HV)
    as (Hs & _ & Hvars); [intros owner field name []|].
  split; [exact (Permutation_NoDup (Permutation_sym HW) ND)|].
  split; [assumption|].
  split; [exact (Permutation_trans HW (Permutation_sym HP))|].
  split; [assumption|].
  intros v t n Hin Hr. apply (settled_reaches schema new Hs t n Hr).
  intros k Hk. eapply Hvars; eauto.
Qed.

End Aggregator.

(* ================================================================= *)
(** ** With typed overrides nothing throws *)

Section Typed.

Variable schema : Schema.
Variable options : JSONSchemaOptions.

Hypothesis overrides_typed :
  forall name custom,
    lookup name (customScalarSchemas options) = Some custom ->
    oneOfIsArray custom /\ descriptionHasText custom.

Lemma broaden_typed def : oneOfIsArray def -> broaden def <> TypeError.
Proof.
  intros H. unfold broaden.
  destruct (obj_get "oneOf" def) as [v|] eqn:O.
  - destruct (H v O) as [alternatives ->].
    destruct (obj_get "type" def) as [[| | | | |]|];
      try destruct (truthy _); discriminate.
  - destruct (obj_get "type" def) as [[| | | | |]|];
      try destruct (truthy _); discriminate.
Qed.

Lemma scalarBlock_typed name isNonNull :
  scalarBlock options name isNonNull [] <> TypeError.
Proof.
  unfold scalarBlock. destruct (scalarTypesMap name);
    [destruct isNonNull; discriminate|].
  destruct (lookup name (customScalarSchemas options)) as [custom|] eqn:L;
    (destruct isNonNull; [discriminate|]).
  - apply broaden_typed. eapply overrides_typed; eauto.
  - discriminate.
Qed.

(** A description with a text can be appended to. *)
Lemma describable_text isNonNull def :
  descriptionHasText def -> describable isNonNull def = true.
Proof.
  intros H. unfold describable, truthyMember.
  destruct (obj_get "description" def) as [v|] eqn:E; [|apply orb_true_r].
  destruct (truthy v); [|apply orb_true_r].
  rewrite (H v E). apply orb_true_r.
Qed.

Lemma text_plain def :
  obj_get "description" def = None -> descriptionHasText def.
Proof. intros H v E. congruence. Qed.

Lemma text_set k v def :
  k <> "description" -> descriptionHasText def ->
  descriptionHasText (obj_set k v def).
Proof.
  intros Hk H x E. rewrite obj_get_set in E.
  destruct (k =? "description") eqn:K; [|auto].
  apply String.eqb_eq in K. contradiction.
Qed.

Lemma broaden_text def def' :
  descriptionHasText def -> broaden def = Ok def' ->
  descriptionHasText def'.
Proof.
  intros H. unfold broaden.
  assert (Hwrap : descriptionHasText
                    [("oneOf", JArray [JObject def; nullSchema])])
    by (apply text_plain; reflexivity).
  assert (Hvia : forall r,
    match obj_get "oneOf" def with
    | Some (JArray alternatives) =>
        Ok (obj_set "oneOf" (JArray (alternatives ++ [nullSchema])) def)
    | Some v =>
        if truthy v then TypeError
        else Ok [("oneOf", JArray [JObject def; nullSchema])]
    | None => Ok [("oneOf", JArray [JObject def; nullSchema])]
    end = Ok r -> descriptionHasText r).
  { intros r. destruct (obj_get "oneOf" def) as [v|];
      [|intros [= <-]; exact Hwrap].
    destruct v; try (destruct (truthy _); [discriminate|]);
      try (intros [= <-]; exact Hwrap).
    intros [= <-]. apply text_set; [discriminate|assumption]. }
  destruct (obj_get "type" def) as [v|]; [|apply Hvia].
  destruct v; try (destruct (truthy _); [|apply Hvia]); try apply Hvia;
    intros [= <-]; (apply text_set; [discriminate|assumption]).
Qed.

Lemma scalarBlock_text name isNonNull def :
  scalarBlock options name isNonNull [] = Ok def -> descriptionHasText def.
Proof.
  unfold scalarBlock. destruct (scalarTypesMap name).
  - destruct isNonNull; intros [= <-]; apply text_plain; reflexivity.
  - assert (H : descriptionHasText
                  (match lookup name (customScalarSchemas options) with
                   | Some custom => custom
                   | None => obj_set "type" anyScalar []
                   end)).
    { destruct (lookup name (customScalarSchemas options)) eqn:E.
      - now apply (overrides_typed name).
      - apply text_plain. reflexivity. }
    destruct isNonNull; [intros [= <-]; exact H|].
    now apply broaden_text.
Qed.

(** What a call in the non-null context returns can be described by the
    wrapper around it. *)
Lemma Synth_text type isNonNull marker result marker' written :
  Synth schema options type isNonNull marker result marker' written ->
  isNonNull = true -> descriptionHasText (definition result).
Proof.
  induction 1; intros ->; cbn [finish definition].
  - apply text_plain. simpl. destruct (field_defaultValue f); reflexivity.
  - apply text_plain. reflexivity.
  - eapply scalarBlock_text; eauto.
  - apply text_plain. reflexivity.
  - auto.
  - apply text_plain. reflexivity.
  - apply text_plain. reflexivity.
Qed.

Lemma fieldsLoop_typed
  (synthesize : TypeOrField -> bool -> Marker -> outcome Synthesis) :
  (forall type isNonNull marker,
      synthesize type isNonNull marker <> TypeError) ->
  forall fields properties requiredFields defs marker,
    fieldsLoop options synthesize fields properties requiredFields defs marker
    <> TypeError.
Proof.
  intros Hs fields.
  induction fields as [|field rest IH]; simpl; intros p rq d m;
    [discriminate|].
  pose proof (Hs (OfType (field_type field)) false m) as H1.
  destruct (synthesize (OfType (field_type field)) false m)
    as [[ofType m1]| |]; simpl; [|congruence|discriminate].
  pose proof (Hs (OfField field) false m1) as H2.
  destruct (synthesize (OfField field) false m1)
    as [[ofField m2]| |]; simpl; [|congruence|discriminate].
  apply IH.
Qed.

Lemma getJSONSchemaFromGraphQLType_typed (fuel : nat) :
  forall type isNonNull marker,
    getJSONSchemaFromGraphQLType schema options fuel type isNonNull marker
    <> TypeError.
Proof.
  induction fuel as [|fuel IH]; intros type isNonNull marker;
    [discriminate|].
  simpl.
  destruct type as [[name d|name d values|name|ofType|ofType]|f]; simpl.
  - pose proof (scalarBlock_typed name isNonNull) as H.
    destruct (scalarBlock options name isNonNull []) as [def| |] eqn:E;
      simpl; [|congruence|discriminate].
    rewrite describable_text by (eapply scalarBlock_text; eauto).
    discriminate.
  - rewrite describable_plain by reflexivity. discriminate.
  - unfold mark. destruct (marked name marker); simpl;
      [rewrite describable_reference; discriminate|].
    pose proof (fieldsLoop_typed _ IH (getFields schema name) [] [] []
                  (marker ++ [name])) as H.
    destruct (fieldsLoop options
                (getJSONSchemaFromGraphQLType schema options fuel)
                (getFields schema name) [] [] [] (marker ++ [name]))
      as [[[[p rq] d] m]| |]; simpl; [|congruence|discriminate].
    rewrite describable_reference. discriminate.
  - pose proof (IH (OfType ofType) false marker) as H.
    destruct (getJSONSchemaFromGraphQLType schema options fuel
                (OfType ofType) false marker) as [[inner m]| |]; simpl;
      [|congruence|discriminate].
    rewrite describable_plain by reflexivity. discriminate.
  - pose proof (IH (OfType ofType) true marker) as H.
    destruct (getJSONSchemaFromGraphQLType schema options fuel
                (OfType ofType) true marker) as [[inner m]| |] eqn:E; simpl;
      [|congruence|discriminate].
    apply getJSONSchemaFromGraphQLType_Synth in E as [w E].
    rewrite describable_text by (eapply Synth_text; eauto).
    discriminate.
  - pose proof (describable_field isNonNull f) as D. simpl in D.
    rewrite D. discriminate.
Qed.

Lemma variablesLoop_typed entries :
  forall properties requiredVariables defs marker,
    variablesLoop schema options entries properties requiredVariables defs
      marker <> TypeError.
Proof.
  induction entries as [|[variableName type] rest IH]; simpl;
    intros p rq d m; [discriminate|].
  pose proof (getJSONSchemaFromGraphQLType_typed (fuelFor schema type)
                (OfType type) false m) as H.
  destruct (getJSONSchemaFromGraphQLType schema options
              (fuelFor schema type) (OfType type) false m)
    as [[result m1]| |]; simpl; [apply IH|congruence|discriminate].
Qed.

End Typed.

(* ================================================================= *)
(** ** Properties of the synthesizer and of its document *)

Lemma terminates_iff {A : Type} (x : outcome A) :
  terminates x <-> x <> OutOfFuel.
Proof.
  unfold terminates. destruct x; split; intros H;
    try discriminate; try congruence; eauto.
  destruct H as [[a H]|H]; discriminate.
Qed.

Lemma returns_iff {A : Type} (x : outcome A) :
  (exists a, x = Ok a) <-> x <> OutOfFuel /\ x <> TypeError.
Proof.
  destruct x; split; intros H; eauto.
  - split; discriminate.
  - destruct H as [a H]. discriminate.
  - destruct H as [_ H]. congruence.
  - destruct H as [a H]. discriminate.
  - destruct H as [H _]. congruence.
Qed.

(** C9.  The synthesizer terminates on every type of every schema, cyclic
    ones included: a budget of [fuelFor] calls in depth is never used up,
    so that the call comes to an end, and so does the aggregator; they
    return when every override is typed where a block of the source depends
    on it (its [oneOf] an array, for the push of line 178; its
    [description] with a text, for the conversion of line 325).  A call on
    an input object type whose name the marker holds returns the reference
    fragment, no definitions and the marker as it was; it makes no call on
    the fields, a budget of one call suffices. *)
Theorem synthesis_terminates
  schema options type isNonNull marker fuel variableToType name seen budget :
  fuelFor schema type <= fuel ->
  marked name seen = true ->
  terminates (getJSONSchemaFromGraphQLType schema options fuel (OfType type)
                isNonNull marker) /\
  terminates (getVariablesJSONSchema schema options variableToType) /\
  ((forall scalar custom,
       lookup scalar (customScalarSchemas options) = Some custom ->
       oneOfIsArray custom /\ descriptionHasText custom) ->
   (exists result,
       getJSONSchemaFromGraphQLType schema options fuel (OfType type)
         isNonNull marker = Ok result) /\
   (exists doc,
       getVariablesJSONSchema schema options variableToType = Ok doc)) /\
  getJSONSchemaFromGraphQLType schema options (S budget)
    (OfType (GraphQLInputObjectType name)) isNonNull seen
  = Ok (finish schema options (OfType (GraphQLInputObjectType name))
          isNonNull (referenceBlock name isNonNull []) false [],
        seen).
Proof.
  intros Hfuel Hmarked.
  assert (H1 : getJSONSchemaFromGraphQLType schema options fuel (OfType type)
                 isNonNull marker <> OutOfFuel).
  { apply (enough_fuel schema options (unmarked schema marker));
      [apply Nat.le_refl|].
    etransitivity; [apply fuelFor_enough | exact Hfuel]. }
  assert (H2 : variablesLoop schema options variableToType [] [] None []
               <> OutOfFuel) by apply variablesLoop_returns.
  split; [now apply terminates_iff|]. split; [|split].
  - apply terminates_iff. unfold getVariablesJSONSchema.
    destruct (variablesLoop schema options variableToType [] [] None [])
      as [[[[p rq] d] m]| |]; simpl; congruence.
  - intros Htyped. split.
    + apply returns_iff. split; [assumption|].
      now apply getJSONSchemaFromGraphQLType_typed.
    + pose proof (variablesLoop_typed schema options Htyped variableToType
                    [] [] None []) as H3.
      unfold getVariablesJSONSchema.
      destruct (variablesLoop schema options variableToType [] [] None [])
        as [[[[p rq] d] m]| |]; simpl; [eauto|congruence..].
  - simpl. unfold mark. rewrite Hmarked. simpl.
    now rewrite describable_reference.
Qed.

Lemma synthesis_terminates_witness :
  fuelFor filterSchema (GraphQLInputObjectType "Filter") <= 3 /\
  marked "Filter" ["Filter"] = true /\
  terminates
    (getJSONSchemaFromGraphQLType filterSchema defaultJSONSchemaOptions 3
       (OfType (GraphQLInputObjectType "Filter")) false []) /\
  terminates
    (getVariablesJSONSchema filterSchema defaultJSONSchemaOptions
       [("filter", GraphQLInputObjectType "Filter")]) /\
  ((forall scalar custom,
       lookup scalar (customScalarSchemas defaultJSONSchemaOptions)
       = Some custom ->
       oneOfIsArray custom /\ descriptionHasText custom) ->
   (exists result,
       getJSONSchemaFromGraphQLType filterSchema defaultJSONSchemaOptions 3
         (OfType (GraphQLInputObjectType "Filter")) false []
       = Ok result) /\
   (exists doc,
       getVariablesJSONSchema filterSchema defaultJSONSchemaOptions
         [("filter", GraphQLInputObjectType "Filter")] = Ok doc)) /\
  getJSONSchemaFromGraphQLType filterSchema defaultJSONSchemaOptions 1
    (OfType (GraphQLInputObjectType "Filter")) false ["Filter"]
  = Ok (finish filterSchema defaultJSONSchemaOptions
          (OfType (GraphQLInputObjectType "Filter")) false
          (referenceBlock "Filter" false []) false [],
        ["Filter"]).
Proof.
  assert (H1 : fuelFor filterSchema (GraphQLInputObjectType "Filter") <= 3)
    by (vm_compute; lia).
  assert (H2 : marked "Filter" ["Filter"] = true) by reflexivity.
  split; [exact H1|]. split; [exact H2|].
  exact (synthesis_terminates filterSchema defaultJSONSchemaOptions
           (GraphQLInputObjectType "Filter") false [] 3
           [("filter", GraphQLInputObjectType "Filter")] "Filter" ["Filter"]
           0 H1 H2).
Defined.

(** C2.  In a run of the aggregator the names for which a definition is
    written (line 302) are the names that the marker has come to hold and
    the keys of the definitions of the document, and every input object
    type that a variable reaches is written exactly once and has its
    entry, however many variables and fields lead to it and whether or not
    it leads back to itself. *)
Theorem definitions_written_once schema options variableToType doc :
  getVariablesJSONSchema schema options variableToType = Ok doc ->
  exists properties requiredVariables defs marker written,
    variablesLoop schema options variableToType [] [] None []
    = Ok (properties, requiredVariables, defs, marker) /\
    Variables schema options variableToType [] [] None []
      properties requiredVariables defs marker written /\
    doc = document properties requiredVariables defs /\
    Permutation written marker /\
    Permutation written (obj_keys (entriesOf defs)) /\
    forall variableName type name,
      In (variableName, type) variableToType ->
      reaches schema type name ->
      count_occ string_dec written name = 1 /\
      exists d, obj_get name (entriesOf defs) = Some d.
Proof.
  intros H.
  destruct (getVariablesJSONSchema_inv _ _ _ _ H)
    as (p & rq & defs & m & w & HL & HV & ->).
  exists p, rq, defs, m, w.
  split; [assumption|]. split; [assumption|]. split; [reflexivity|].
  destruct (Variables_written _ _ _ _ _ _ _ _ HV)
    as (ND & HWM & HWK & _ & Hreach).
  split; [assumption|]. split; [assumption|].
  intros v t n Hin Hr.
  assert (Hw : In n w).
  { apply (Permutation_in _ (Permutation_sym HWM)). eapply Hreach; eauto. }
  split.
  - now apply NoDup_count_occ'.
  - destruct (obj_get n (entriesOf defs)) as [d|] eqn:E; [now exists d|].
    apply obj_get_None in E. exfalso. apply E.
    exact (Permutation_in _ HWK Hw).
Qed.

Lemma definitions_written_once_witness :
  exists doc,
    getVariablesJSONSchema filterSchema defaultJSONSchemaOptions
      [("a", GraphQLInputObjectType "Filter");
       ("b", GraphQLList (GraphQLInputObjectType "Filter"))] = Ok doc /\
    exists properties requiredVariables defs marker written,
      variablesLoop filterSchema defaultJSONSchemaOptions
        [("a", GraphQLInputObjectType "Filter");
         ("b", GraphQLList (GraphQLInputObjectType "Filter"))] [] [] None []
      = Ok (properties, requiredVariables, defs, marker) /\
      Variables filterSchema defaultJSONSchemaOptions
        [("a", GraphQLInputObjectType "Filter");
         ("b", GraphQLList (GraphQLInputObjectType "Filter"))] [] [] None []
        properties requiredVariables defs marker written /\
      doc = document properties requiredVariables defs /\
      Permutation written marker /\
      Permutation written (obj_keys (entriesOf defs)) /\
      forall variableName type name,
        In (variableName, type)
          [("a", GraphQLInputObjectType "Filter");
           ("b", GraphQLList (GraphQLInputObjectType "Filter"))] ->
        reaches filterSchema type name ->
        count_occ string_dec written name = 1 /\
        exists d, obj_get name (entriesOf defs) = Some d.
Proof.
  eexists. split; [vm_compute; reflexivity|].
  apply (definitions_written_once filterSchema defaultJSONSchemaOptions).
  vm_compute. reflexivity.
Defined.

(** C1, as the code has it.  When no override of [customScalarSchemas]
    holds a [$ref], every [$ref] of every fragment of the document (of a
    property, of the items of a list, of an alternative, of a definition)
    is [#/definitions/<Name>] for a key [Name] of the definitions of the
    document. *)
Theorem references_are_defined schema options variableToType doc o ref :
  (forall name custom,
      In (name, custom) (customScalarSchemas options) ->
      allFragments (lacks "$ref") (JObject custom)) ->
  getVariablesJSONSchema schema options variableToType = Ok doc ->
  fragmentOf (JObject doc) (JObject o) ->
  In ("$ref", ref) o ->
  exists name defs,
    ref = JString ("#/definitions/" ^^ name) /\
    obj_get "definitions" doc = Some (JObject defs) /\
    In name (obj_keys defs).
Proof.
  intros Hcustom H Hfrag Href.
  destruct (getVariablesJSONSchema_inv _ _ _ _ H)
    as (p & rq & defs & m & w & HL & HV & ->).
  destruct (references_Variables schema options Hcustom _ _ _ _ _ _ _ _ _ _
              HV)
    as [Hp Hd]; try apply allEntries_nil.
  destruct (Variables_written _ _ _ _ _ _ _ _ HV)
    as (_ & HWM & HWK & _ & _).
  pose proof (good_document m p rq defs Hp Hd) as Hdoc.
  destruct (Hdoc _ Hfrag o ref eq_refl Href) as (name & -> & Hname).
  assert (Hkey : In name (obj_keys (entriesOf defs))).
  { apply (Permutation_in _ HWK), (Permutation_in _ (Permutation_sym HWM)).
    assumption. }
  destruct defs as [d|]; [|destruct Hkey].
  exists name, d. repeat split; assumption.
Qed.

Lemma references_are_defined_witness :
  exists name defs,
    refTo "Filter" = JString ("#/definitions/" ^^ name) /\
    obj_get "definitions"
      (document
         [("filter",
           JObject [("$ref", refTo "Filter");
                    ("description", JString "Filter!")])]
         [JString "filter"]
         (Some
            [("Filter",
              JObject
                (fieldDefOf filterSchema defaultJSONSchemaOptions "Filter"
                   [("self",
                     JObject
                       [("oneOf",
                         JArray [JObject [("$ref", refTo "Filter")];
                                 nullSchema]);
                        ("description", JString "Filter")])]
                   []))]))
    = Some (JObject defs) /\
    In name (obj_keys defs).
Proof.
  apply (references_are_defined filterSchema defaultJSONSchemaOptions
           [("filter", GraphQLNonNull (GraphQLInputObjectType "Filter"))]
           _
           [("$ref", refTo "Filter"); ("description", JString "Filter!")]
           (refTo "Filter")).
  - intros name custom [].
  - reflexivity.
  - eapply fragment_inside; [|apply fragment_here].
    eapply (subschema_map "properties");
      [simpl; tauto | simpl; right; right; left; reflexivity
      | left; reflexivity].
  - simpl. auto.
Defined.

(** C1 as stated fails: the override of a custom scalar is copied into the
    document with the [$ref] it holds, which need not be of the form
    [#/definitions/<Name>]. *)
Lemma references_are_defined_counterexample :
  exists doc o ref,
    getVariablesJSONSchema [] urlOptions
      [("link", GraphQLNonNull (GraphQLScalarType "Url" None))] = Ok doc /\
    fragmentOf (JObject doc) (JObject o) /\
    In ("$ref", ref) o /\
    ~ exists name defs,
        ref = JString ("#/definitions/" ^^ name) /\
        obj_get "definitions" doc = Some (JObject defs) /\
        In name (obj_keys defs).
Proof.
  eexists. exists [("$ref", JString "https://example.com/url.json");
                   ("description", JString "Url!")].
  exists (JString "https://example.com/url.json").
  split; [reflexivity|]. split; [|split].
  - eapply fragment_inside; [|apply fragment_here].
    eapply (subschema_map "properties");
      [simpl; tauto | simpl; right; right; left; reflexivity
      | left; reflexivity].
  - simpl. auto.
  - intros (name & defs & E & _). discriminate E.
Qed.

(** C4, as the code has it.  The document has the key [definitions] exactly
    when the variable map has an entry: every call of the synthesizer
    returns a definitions object, which the aggregator merges in, be it
    empty.  With an entry and nothing written the key holds the empty
    map. *)
Theorem definitions_key schema options variableToType doc :
  getVariablesJSONSchema schema options variableToType = Ok doc ->
  exists properties requiredVariables defs marker written,
    Variables schema options variableToType [] [] None []
      properties requiredVariables defs marker written /\
    doc = document properties requiredVariables defs /\
    (variableToType = [] -> obj_get "definitions" doc = None) /\
    (variableToType <> [] ->
     exists d, obj_get "definitions" doc = Some (JObject d) /\
               (written = [] -> d = [])).
Proof.
  intros H.
  destruct (getVariablesJSONSchema_inv _ _ _ _ H)
    as (p & rq & defs & m & w & HL & HV & ->).
  exists p, rq, defs, m, w. split; [assumption|]. split; [reflexivity|].
  destruct (Variables_written _ _ _ _ _ _ _ _ HV) as (_ & _ & HWK & _).
  split.
  - intros ->. inversion HV; subst. reflexivity.
  - intros Hne. inversion HV; subst; [contradiction|].
    assert (Hsome : exists d, defs = Some d).
    { clear - H1. remember (Some _) as start eqn:E. revert E.
      generalize (obj_spread (obj_spread [] []) (definitions result)).
      induction H1; intros o E; subst; eauto. }
    destruct Hsome as [d ->]. exists d. split; [reflexivity|].
    simpl in HWK. intros Hw. rewrite Hw in HWK.
    apply Permutation_nil in HWK. destruct d; [reflexivity|discriminate].
Qed.

Lemma definitions_key_witness :
  exists doc,
    getVariablesJSONSchema [] defaultJSONSchemaOptions
      [("id", GraphQLNonNull GraphQLID)] = Ok doc /\
    exists properties requiredVariables defs marker written,
      Variables [] defaultJSONSchemaOptions
        [("id", GraphQLNonNull GraphQLID)] [] [] None []
        properties requiredVariables defs marker written /\
      doc = document properties requiredVariables defs /\
      ([("id", GraphQLNonNull GraphQLID)] = [] ->
       obj_get "definitions" doc = None) /\
      ([("id", GraphQLNonNull GraphQLID)] <> [] ->
       exists d, obj_get "definitions" doc = Some (JObject d) /\
                 (written = [] -> d = [])).
Proof.
  eexists. split; [vm_compute; reflexivity|].
  apply (definitions_key [] defaultJSONSchemaOptions).
  vm_compute. reflexivity.
Defined.

(** C4 as stated fails: for the variable [id: ID!] nothing is registered,
    the marker stays empty, and the document has the key [definitions]. *)
Lemma definitions_key_counterexample :
  exists doc properties requiredVariables defs,
    getVariablesJSONSchema [] defaultJSONSchemaOptions
      [("id", GraphQLNonNull GraphQLID)] = Ok doc /\
    variablesLoop [] defaultJSONSchemaOptions
      [("id", GraphQLNonNull GraphQLID)] [] [] None []
    = Ok (properties, requiredVariables, defs, []) /\
    entriesOf defs = [] /\
    obj_get "definitions" doc <> None.
Proof.
  do 4 eexists. split; [vm_compute; reflexivity|].
  split; [vm_compute; reflexivity|].
  split; [reflexivity|]. discriminate.
Qed.

(** C5.  For the one variable [id] of type [ID!] (and the default
    [useMarkdownDescription: false]) the document has the property
    [{"type":"string","description":"ID!"}] for [id], and [id] is in its
    required list. *)
Theorem id_scenario schema customs description :
  exists doc properties requiredVariables,
    getVariablesJSONSchema schema
      {| useMarkdownDescription := false; customScalarSchemas := customs |}
      [("id", GraphQLNonNull (GraphQLScalarType "ID" description))]
    = Ok doc /\
    obj_get "properties" doc = Some (JObject properties) /\
    obj_get "id" properties
    = Some (JObject [("type", JString "string");
                     ("description", JString "ID!")]) /\
    obj_get "required" doc = Some (JArray requiredVariables) /\
    In (JString "id") requiredVariables.
Proof.
  do 3 eexists. split; [|split; [|split; [|split]]].
  - unfold getVariablesJSONSchema, variablesLoop, fuelFor. simpl.
    reflexivity.
  - reflexivity.
  - reflexivity.
  - reflexivity.
  - left. reflexivity.
Qed.

(** C6, as the code has it.  For [input Filter { self: Filter }] and a
    variable of type [Filter] the document has the one definition
    [Filter], and its property [self] is the union of the reference and
    [null] together with the description that every property gets, the
    rendered type of the field. *)
Theorem filter_scenario customs variableName :
  exists doc filterDef,
    getVariablesJSONSchema filterSchema
      {| useMarkdownDescription := false; customScalarSchemas := customs |}
      [(variableName, GraphQLInputObjectType "Filter")] = Ok doc /\
    obj_get "definitions" doc = Some (JObject [("Filter", JObject filterDef)])
    /\
    obj_get "properties" filterDef
    = Some (JObject
              [("self",
                JObject
                  [("oneOf",
                    JArray [JObject [("$ref", JString "#/definitions/Filter")];
                            JObject [("type", JString "null")]]);
                   ("description", JString "Filter")])]).
Proof.
  do 2 eexists. split; [|split].
  - unfold getVariablesJSONSchema. simpl. reflexivity.
  - reflexivity.
  - reflexivity.
Qed.

(** C6 as stated fails: the property [self] is not the bare union, it
    carries a description. *)
Lemma filter_scenario_counterexample :
  exists doc defs filterDef properties self,
    getVariablesJSONSchema filterSchema defaultJSONSchemaOptions
      [("filter", GraphQLInputObjectType "Filter")] = Ok doc /\
    obj_get "definitions" doc = Some (JObject defs) /\
    obj_get "Filter" defs = Some (JObject filterDef) /\
    obj_get "properties" filterDef = Some (JObject properties) /\
    obj_get "self" properties = Some self /\
    self <> JObject
              [("oneOf",
                JArray [JObject [("$ref", JString "#/definitions/Filter")];
                        JObject [("type", JString "null")]])].
Proof.
  do 5 eexists. split; [vm_compute; reflexivity|].
  repeat (split; [reflexivity|]). discriminate.
Qed.

(** C7, as the code has it.  A custom scalar [JSON] without an override
    yields, in a nullable context, the five type tags together with the
    description that every nullable occurrence gets, the rendered type. *)
Theorem json_scalar_scenario schema customs description fuel marker :
  lookup "JSON" customs = None ->
  getJSONSchemaFromGraphQLType schema
    {| useMarkdownDescription := false; customScalarSchemas := customs |}
    (S fuel) (OfType (GraphQLScalarType "JSON" description)) false marker
  = Ok ({| definition :=
             [("type",
               JArray [JString "string"; JString "number"; JString "boolean";
                       JString "integer"; JString "null"]);
              ("description", JString "JSON")];
           required := false;
           definitions := [] |}, marker).
Proof.
  intros H. simpl. unfold scalarBlock. simpl. rewrite H. reflexivity.
Qed.

Lemma json_scalar_scenario_witness :
  lookup "JSON" (@nil (string * Obj)) = None /\
  getJSONSchemaFromGraphQLType [] defaultJSONSchemaOptions 1
    (OfType (GraphQLScalarType "JSON" None)) false []
  = Ok ({| definition :=
             [("type",
               JArray [JString "string"; JString "number"; JString "boolean";
                       JString "integer"; JString "null"]);
              ("description", JString "JSON")];
           required := false;
           definitions := [] |}, []).
Proof.
  split; [reflexivity|].
  exact (json_scalar_scenario [] [] None 0 [] eq_refl).
Defined.

(** C7 as stated fails: the fragment is not the bare list of type tags. *)
Lemma json_scalar_scenario_counterexample :
  exists result marker,
    getJSONSchemaFromGraphQLType [] defaultJSONSchemaOptions 1
      (OfType (GraphQLScalarType "JSON" None)) false [] = Ok (result, marker)
    /\
    definition result
    <> [("type",
         JArray [JString "string"; JString "number"; JString "boolean";
                 JString "integer"; JString "null"])].
Proof.
  do 2 eexists. split; [vm_compute; reflexivity|]. discriminate.
Qed.

Lemma obj_get_describe schema options type def k :
  k <> "description" -> k <> "markdownDescription" ->
  obj_get k (describe schema options type def) = obj_get k def.
Proof.
  intros H1 H2.
  assert (Hd : forall v o, obj_get k (obj_set "description" v o) = obj_get k o).
  { intros v o. rewrite obj_get_set.
    destruct ("description" =? k) eqn:E; [|reflexivity].
    apply String.eqb_eq in E. congruence. }
  assert (Hm : forall v o,
             obj_get k (obj_set "markdownDescription" v o) = obj_get k o).
  { intros v o. rewrite obj_get_set.
    destruct ("markdownDescription" =? k) eqn:E; [|reflexivity].
    apply String.eqb_eq in E. congruence. }
  unfold describe.
  destruct (ownDescription schema _), (truthyMember "description" def),
    (useMarkdownDescription options);
    rewrite ?Hm, ?Hd; reflexivity.
Qed.

(** C10, as the code has it.  The items of a list are synthesized in a
    nullable context.  If that fragment has a truthy [$ref], the item
    schema holds that [$ref] and nothing else; if it has none but a truthy
    [oneOf], the item schema holds that [oneOf] and nothing else;
    otherwise the item schema is the fragment. *)
Theorem list_items schema options fuel ofType isNonNull marker result marker' :
  getJSONSchemaFromGraphQLType schema options (S fuel)
    (OfType (GraphQLList ofType)) isNonNull marker = Ok (result, marker') ->
  exists inner items,
    getJSONSchemaFromGraphQLType schema options fuel (OfType ofType) false
      marker = Ok (inner, marker') /\
    obj_get "items" (definition result) = Some (JObject items) /\
    match truthyMember "$ref" (definition inner),
          truthyMember "oneOf" (definition inner) with
    | Some ref, _ => items = [("$ref", ref)]
    | None, Some alternatives => items = [("oneOf", alternatives)]
    | None, None => items = definition inner
    end.
Proof.
  intros H. simpl in H.
  destruct (getJSONSchemaFromGraphQLType schema options fuel (OfType ofType)
              false marker) as [[inner m]| |] eqn:E; simpl in H;
    [|discriminate..].
  rewrite describable_plain in H by reflexivity.
  injection H as <- <-. exists inner, (listItems (definition inner)).
  split; [reflexivity|]. split.
  - unfold finish. cbn [definition]. destruct isNonNull.
    + reflexivity.
    + rewrite obj_get_describe by discriminate. reflexivity.
  - unfold listItems.
    destruct (truthyMember "$ref" (definition inner)); [reflexivity|].
    destruct (truthyMember "oneOf" (definition inner)); reflexivity.
Qed.

Lemma list_items_witness :
  exists result marker',
    getJSONSchemaFromGraphQLType [] bothOptions 3
      (OfType (GraphQLList (GraphQLNonNull (GraphQLScalarType "Both" None))))
      false [] = Ok (result, marker') /\
    exists inner items,
      getJSONSchemaFromGraphQLType [] bothOptions 2
        (OfType (GraphQLNonNull (GraphQLScalarType "Both" None))) false []
      = Ok (inner, marker') /\
      obj_get "items" (definition result) = Some (JObject items) /\
      match truthyMember "$ref" (definition inner),
            truthyMember "oneOf" (definition inner) with
      | Some ref, _ => items = [("$ref", ref)]
      | None, Some alternatives => items = [("oneOf", alternatives)]
      | None, None => items = definition inner
      end.
Proof.
  do 2 eexists. split; [vm_compute; reflexivity|].
  apply (list_items [] bothOptions 2
           (GraphQLNonNull (GraphQLScalarType "Both" None)) false []).
  vm_compute. reflexivity.
Defined.

(** C10 as stated fails: a fragment with both a [$ref] and a [oneOf] gives
    an item schema with the [$ref] alone, not with the [oneOf] alone. *)
Lemma list_items_counterexample :
  exists inner alternatives result items marker marker',
    getJSONSchemaFromGraphQLType [] bothOptions 2
      (OfType (GraphQLNonNull (GraphQLScalarType "Both" None))) false []
    = Ok (inner, marker) /\
    obj_get "oneOf" (definition inner) = Some alternatives /\
    getJSONSchemaFromGraphQLType [] bothOptions 3
      (OfType (GraphQLList (GraphQLNonNull (GraphQLScalarType "Both" None))))
      false [] = Ok (result, marker') /\
    obj_get "items" (definition result) = Some (JObject items) /\
    items <> [("oneOf", alternatives)].
Proof.
  do 6 eexists. split; [vm_compute; reflexivity|].
  split; [vm_compute; reflexivity|].
  split; [vm_compute; reflexivity|].
  split; [vm_compute; reflexivity|]. discriminate.
Qed.

Lemma broaden_null def def' :
  broaden def = Ok def' -> hasNullAlternative def'.
Proof.
  unfold broaden.
  assert (Hwrap : hasNullAlternative
                    [("oneOf", JArray [JObject def; nullSchema])]).
  { right. right. eexists. split; [reflexivity|]. right. now left. }
  assert (Hvia : forall r,
    match obj_get "oneOf" def with
    | Some (JArray alternatives) =>
        Ok (obj_set "oneOf" (JArray (alternatives ++ [nullSchema])) def)
    | Some v =>
        if truthy v then TypeError
        else Ok [("oneOf", JArray [JObject def; nullSchema])]
    | None => Ok [("oneOf", JArray [JObject def; nullSchema])]
    end = Ok r -> hasNullAlternative r).
  { intros r. destruct (obj_get "oneOf" def) as [v|];
      [|intros [= <-]; exact Hwrap].
    destruct v; try (destruct (truthy _); [discriminate|]);
      try (intros [= <-]; exact Hwrap).
    intros [= <-]. right. right. eexists.
    split; [apply obj_get_set_same|]. apply in_or_app. right. now left. }
  destruct (obj_get "type" def) as [v|]; [|apply Hvia].
  destruct v; try (destruct (truthy _); [|apply Hvia]); try apply Hvia;
    intros [= <-]; left; eexists;
    (split; [apply obj_get_set_same|]);
    solve [right; now left | apply in_or_app; right; now left].
Qed.

Lemma hasNullAlternative_describe schema options type def :
  hasNullAlternative (describe schema options type def) <->
  hasNullAlternative def.
Proof.
  unfold hasNullAlternative, inArrayOf.
  now rewrite !obj_get_describe by discriminate.
Qed.




(* ================================================================= *)
(** ** Descriptions and their markdown *)

Lemma append_empty (s : string) : s ^^ "" = s.
Proof. induction s as [|c s IH]; simpl; [reflexivity|now rewrite IH]. Qed.

Lemma append_associative (a b c : string) : (a ^^ b) ^^ c = a ^^ b ^^ c.
Proof. induction a as [|x a IH]; simpl; [reflexivity|now rewrite IH]. Qed.

Lemma concat_cons (x : string) (xs : list string) :
  String.concat "" (x :: xs) = x ^^ String.concat "" xs.
Proof.
  destruct xs as [|y ys]; simpl; [now rewrite append_empty|reflexivity].
Qed.

Lemma concat_app (xs ys : list string) :
  String.concat "" (xs ++ ys) = String.concat "" xs ^^ String.concat "" ys.
Proof.
  induction xs as [|x xs IH]; [reflexivity|].
  rewrite <- app_comm_cons, !concat_cons, IH.
  now rewrite append_associative.
Qed.

Lemma renderType_into (t : GraphQLInputType) :
  forall into, renderType into t = into ++ renderType [] t.
Proof.
  induction t as [name d|name d values|name|ofType IH|ofType IH];
    intros into; simpl; unfold text; try reflexivity.
  - rewrite (IH (into ++ ["["])), (IH ([] ++ ["["])).
    now rewrite <- !app_assoc.
  - rewrite (IH into). now rewrite <- app_assoc.
Qed.

Lemma renderTypeOrField_into (t : TypeOrField) (into : list string) :
  renderTypeOrField into t = into ++ renderTypeOrField [] t.
Proof. destruct t; simpl; [apply renderType_into|reflexivity]. Qed.

(** The markdown rendering is the plain one within the fence. *)
Lemma renderTypeToString_markdown (t : TypeOrField) :
  renderTypeToString t true = fenceOf (renderTypeToString t false).
Proof.
  unfold renderTypeToString, fenceOf, text.
  rewrite renderTypeOrField_into, !concat_app. simpl.
  reflexivity.
Qed.

Lemma described_mirror (d : option string) (t : TypeOrField) :
  exists prefix,
    described d (renderTypeToString t false)
    = prefix ^^ renderTypeToString t false /\
    described d (renderTypeToString t true)
    = prefix ^^ fenceOf (renderTypeToString t false).
Proof.
  unfold described. rewrite renderTypeToString_markdown.
  destruct (truthyString d) as [x|].
  - exists (x ^^ nl). now rewrite !append_associative.
  - exists "". split; reflexivity.
Qed.

Lemma obj_set_NoDup k v o :
  NoDup (obj_keys o) -> NoDup (obj_keys (obj_set k v o)).
Proof.
  induction o as [|[k0 v0] rest IH]; simpl; intros ND.
  - repeat constructor. intros [].
  - inversion ND as [|? ? Hk ND']; subst.
    destruct (k0 =? k) eqn:E; simpl.
    + apply String.eqb_eq in E. subst. now constructor.
    + constructor; [|auto]. rewrite obj_keys_set.
      apply String.eqb_neq in E. intros [H|H]; congruence.
Qed.

Lemma obj_spread_NoDup a b :
  NoDup (obj_keys a) -> NoDup (obj_keys (obj_spread a b)).
Proof.
  unfold obj_spread. revert a.
  induction b as [|[k v] rest IH]; simpl; intros a ND; [assumption|].
  apply IH. now apply obj_set_NoDup.
Qed.

Lemma In_obj_set_same k v x o :
  NoDup (obj_keys o) -> In (k, v) (obj_set k x o) -> v = x.
Proof.
  induction o as [|[k0 v0] rest IH]; simpl; intros ND.
  - intros [[= <-]|[]]. reflexivity.
  - inversion ND as [|? ? Hk ND']; subst.
    destruct (k0 =? k) eqn:E.
    + apply String.eqb_eq in E. subst.
      intros [[= <-]|H]; [reflexivity|].
      exfalso. apply Hk. apply in_map_iff. now exists (k, v).
    + apply String.eqb_neq in E.
      intros [[= -> ->]|H]; [congruence|auto].
Qed.

Lemma In_obj_set_other k k' v x o :
  k <> k' -> In (k', v) (obj_set k x o) -> In (k', v) o.
Proof.
  intros Hk H. apply In_obj_set in H as [[= -> ->]|H]; [congruence|assumption].
Qed.

Lemma truthyString_fixed (given : option string) (d : string) :
  truthyString given = Some d -> truthyString (Some d) = Some d.
Proof.
  destruct given as [x|]; simpl; [|discriminate].
  destruct (x =? "") eqn:E; [discriminate|].
  intros [= <-]. now rewrite E.
Qed.

Lemma ownDescription_truthy schema (type : TypeOrField) (d : string) :
  ownDescription schema type = Some d -> truthyString (Some d) = Some d.
Proof.
  destruct type as [[name x|name x values|name|ofType|ofType]|f]; simpl;
    try discriminate; apply truthyString_fixed.
Qed.

Lemma described_some (d rendered : string) :
  truthyString (Some d) = Some d ->
  described (Some d) rendered = d ^^ nl ^^ rendered.
Proof. intros H. unfold described. now rewrite H. Qed.

Section Markdown.

Variable schema : Schema.
Variable options : JSONSchemaOptions.
Variable types : GraphQLInputType -> Prop.

Hypothesis markdown_on : useMarkdownDescription options = true.

(** No override brings a description of its own. *)
Hypothesis overrides_without_descriptions :
  forall name custom,
    In (name, custom) (customScalarSchemas options) ->
    allFragments (lacks "description") (JObject custom).

(** With a type, [types] holds the types that the synthesizer comes to
    from it. *)
Hypothesis types_items :
  forall ofType, types (GraphQLList ofType) -> types ofType.
Hypothesis types_wrapped :
  forall ofType, types (GraphQLNonNull ofType) -> types ofType.
Hypothesis types_fields :
  forall owner field,
    types (GraphQLInputObjectType owner) ->
    In field (getFields schema owner) -> types (field_type field).

Local Abbreviation mirrored := (markdownMirrored types).

Lemma mirrored_objects : aboutObjects mirrored.
Proof. intros s Hs o v ->. exfalso. eapply Hs; reflexivity. Qed.

Lemma lacks_mirrored s :
  allFragments (lacks "description") s -> allFragments mirrored s.
Proof.
  intros H x Hx o v -> Hin. exfalso. exact (H _ Hx o v eq_refl Hin).
Qed.

Lemma bare_mirrored o : bare types o -> allFragments mirrored (JObject o).
Proof.
  intros [Htop Hin]. apply allFragments_object; [|assumption].
  intros o' v [= <-] Hd. exfalso. eapply Htop; eauto.
Qed.

Lemma bare_of_lacks o :
  allFragments (lacks "description") (JObject o) -> bare types o.
Proof.
  intros H. split.
  - intros v Hin. exact (H _ (fragment_here _) o v eq_refl Hin).
  - intros c Hc. apply lacks_mirrored. intros s Hs. apply H.
    econstructor; eauto.
Qed.

Lemma bare_members o o1 o2 :
  (forall k x, In (k, x) o -> In (k, x) o1 \/ In (k, x) o2) ->
  bare types o1 -> bare types o2 -> bare types o.
Proof.
  intros Hsub [T1 I1] [T2 I2]. split.
  - intros v Hin. destruct (Hsub _ _ Hin) as [H|H];
      [exact (T1 v H) | exact (T2 v H)].
  - eapply allInside_members; eauto.
Qed.

Lemma bare_nil : bare types [].
Proof. split; [intros v [] | apply allInside_nil]. Qed.

Lemma bare_set k v o :
  bare types [(k, v)] -> bare types o -> bare types (obj_set k v o).
Proof.
  intros Hv Ho. apply (bare_members _ [(k, v)] o); auto.
  intros k' x H. apply In_obj_set in H as [H|H]; [left; now left | now right].
Qed.

Lemma bare_one k v :
  k <> "description" -> allInside mirrored [(k, v)] -> bare types [(k, v)].
Proof.
  intros Hk Hin. split; [|assumption].
  intros x [[= -> ->]|[]]. contradiction.
Qed.

Ltac plain_member :=
  apply bare_one; [discriminate|];
  apply allInside_plain; simpl; intuition discriminate.

Ltac inside_each :=
  repeat match goal with
         | |- allInside _ (_ :: _ :: _) => apply allInside_cons
         end.

Ltac bareness :=
  repeat first [ apply bare_nil | assumption | plain_member | apply bare_set ].

Lemma bare_nullSchema : allFragments mirrored nullSchema.
Proof. apply bare_mirrored. unfold nullSchema. plain_member. Qed.

Lemma bare_oneOf v :
  (forall elements c, v = JArray elements -> In c elements ->
                      allFragments mirrored c) ->
  bare types [("oneOf", v)].
Proof.
  intros H. apply bare_one; [discriminate|]. now apply allInside_oneOf.
Qed.

(** The markdown text that goes with the description of [type]. *)
Lemma mirrored_set o description type :
  types type ->
  (forall v, In ("description", v) o ->
             v = JString (described description
                            (renderTypeToString (OfType type) false))) ->
  allInside mirrored o ->
  allFragments mirrored
    (JObject
       (obj_set "markdownDescription"
          (JString (described description
                      (fenceOf (renderTypeToString (OfType type) false))))
          o)).
Proof.
  intros Ht Hd Hin. apply allFragments_object.
  - intros o' v [= <-] Hv. apply In_obj_set_other in Hv; [|discriminate].
    exists description, type.
    split; [assumption|]. split; [auto | apply obj_get_set_same].
  - apply allInside_set; [|assumption].
    apply allInside_plain; simpl; intuition discriminate.
Qed.

Lemma describe_bare type def :
  types type -> bare types def ->
  allFragments mirrored
    (JObject (describe schema options (OfType type) def)).
Proof.
  intros Ht [Htop Hin]. unfold describe. cbv zeta. rewrite markdown_on.
  assert (Hnone : truthyMember "description" def = None).
  { unfold truthyMember.
    destruct (obj_get "description" def) eqn:E; [|reflexivity].
    apply obj_get_In in E. exfalso. eapply Htop; eauto. }
  rewrite Hnone, renderTypeToString_markdown.
  assert (Hset : forall x v,
             In ("description", v) (obj_set "description" (JString x) def) ->
             v = JString x).
  { intros x v Hv. apply In_obj_set in Hv as [[= <-]|Hv]; [reflexivity|].
    exfalso. eapply Htop; eauto. }
  assert (Hinside : forall x,
             allInside mirrored (obj_set "description" (JString x) def)).
  { intros x. apply allInside_set; [|assumption].
    apply allInside_plain; simpl; intuition discriminate. }
  destruct (ownDescription schema _) as [d|] eqn:Hown.
  - apply ownDescription_truthy in Hown.
    rewrite <- !(described_some d _ Hown).
    apply mirrored_set; [assumption| |apply Hinside].
    intros v Hv. now apply Hset.
  - change (fenceOf (renderTypeToString (OfType type) false))
      with (described None
              (fenceOf (renderTypeToString (OfType type) false))).
    apply mirrored_set; [assumption| |apply Hinside].
    intros v Hv. now apply Hset.
Qed.

(** What a call on a type in the context [isNonNull] returns. *)
Lemma finish_bare type isNonNull def isRequired defs :
  types type -> bare types def ->
  mirroredIn types isNonNull
    (definition
       (finish schema options (OfType type) isNonNull def isRequired defs)).
Proof.
  intros Ht H. destruct isNonNull; simpl; [assumption|].
  now apply describe_bare.
Qed.

Lemma broaden_bare def def' :
  bare types def -> broaden def = Ok def' -> bare types def'.
Proof.
  intros H. unfold broaden.
  assert (Hwrap : bare types [("oneOf", JArray [JObject def; nullSchema])]).
  { apply bare_oneOf. intros els c [= <-] [<-|[<-|[]]];
      [now apply bare_mirrored | apply bare_nullSchema]. }
  assert (Hvia : forall r,
    match obj_get "oneOf" def with
    | Some (JArray alternatives) =>
        Ok (obj_set "oneOf" (JArray (alternatives ++ [nullSchema])) def)
    | Some v =>
        if truthy v then TypeError
        else Ok [("oneOf", JArray [JObject def; nullSchema])]
    | None => Ok [("oneOf", JArray [JObject def; nullSchema])]
    end = Ok r -> bare types r).
  { intros r. destruct (obj_get "oneOf" def) as [v|] eqn:E;
      [|intros [= <-]; exact Hwrap].
    destruct v; try (destruct (truthy _); [discriminate|]);
      try (intros [= <-]; exact Hwrap).
    intros [= <-]. apply bare_set; [|assumption].
    apply bare_oneOf. intros els c [= <-] Hc.
    apply in_app_or in Hc as [Hc|[<-|[]]]; [|apply bare_nullSchema].
    apply (proj2 H). apply obj_get_In in E.
    eapply subschema_array; eauto. simpl. tauto. }
  destruct (obj_get "type" def) as [v|] eqn:E; [|apply Hvia].
  destruct v; try (destruct (truthy _) eqn:T; [|apply Hvia]);
    try apply Hvia; intros [= <-]; bareness.
Qed.

Lemma scalarBlock_bare name isNonNull def :
  scalarBlock options name isNonNull [] = Ok def -> bare types def.
Proof.
  unfold scalarBlock. destruct (scalarTypesMap name).
  - destruct isNonNull; intros [= <-]; plain_member.
  - assert (H : bare types
              (match lookup name (customScalarSchemas options) with
               | Some custom => custom
               | None => obj_set "type" anyScalar []
               end)).
    { destruct (lookup name (customScalarSchemas options)) eqn:E.
      - apply bare_of_lacks. apply lookup_In in E.
        eapply overrides_without_descriptions; eauto.
      - simpl. plain_member. }
    destruct isNonNull; [intros [= <-]; exact H|].
    now apply broaden_bare.
Qed.

Lemma listItems_mirrored def :
  allFragments mirrored (JObject def) ->
  allFragments mirrored (JObject (listItems def)).
Proof.
  intros H. unfold listItems, truthyMember.
  assert (Halt : forall v,
             obj_get "oneOf" def = Some v ->
             allFragments mirrored (JObject [("oneOf", v)])).
  { intros v O. apply bare_mirrored, bare_oneOf. intros els c -> Hc.
    apply obj_get_In in O.
    exact (allFragments_alternative _ _ _ _ H O Hc). }
  destruct (obj_get "$ref" def) as [r|] eqn:R; [destruct (truthy r)|].
  - apply bare_mirrored. plain_member.
  - destruct (obj_get "oneOf" def) as [v|] eqn:O; [|assumption].
    destruct (truthy v); [|assumption]. now apply Halt.
  - destruct (obj_get "oneOf" def) as [v|] eqn:O; [|assumption].
    destruct (truthy v); [|assumption]. now apply Halt.
Qed.

Lemma referenceBlock_bare name isNonNull :
  bare types (referenceBlock name isNonNull []).
Proof.
  unfold referenceBlock. destruct isNonNull; simpl.
  - plain_member.
  - apply bare_oneOf. intros els c [= <-] [<-|[<-|[]]].
    + apply bare_mirrored. plain_member.
    + apply bare_nullSchema.
Qed.

Lemma fieldDefOf_mirrored name properties requiredFields :
  types (GraphQLInputObjectType name) ->
  allEntries mirrored properties ->
  allFragments mirrored
    (JObject (fieldDefOf schema options name properties requiredFields)).
Proof.
  intros Ht H. unfold fieldDefOf.
  rewrite markdown_on, renderTypeToString_markdown.
  apply allFragments_object.
  - intros o v [= <-] Hin. simpl in Hin.
    destruct Hin as [E|[E|[E|[E|[E|[]]]]]]; try discriminate E.
    injection E as <-.
    exists (typeDescription schema name), (GraphQLInputObjectType name).
    split; [assumption|]. split; reflexivity.
  - simpl. inside_each;
      try (apply allInside_plain; simpl; intuition discriminate).
    apply allInside_map; simpl; auto; intuition discriminate.
Qed.

(** The fragment of the call on a field itself holds no schemas. *)
Lemma field_inside (P : JSON -> Prop) (f : GraphQLInputField) :
  allInside P
    (describe schema options (OfField f) (defaultBlock (OfField f) [])).
Proof.
  assert (Hdef : allInside P (defaultBlock (OfField f) [])).
  { simpl. destruct (field_defaultValue f);
      [apply allInside_plain; simpl; intuition discriminate
      |apply allInside_nil]. }
  assert (Hset : forall k v o,
             In k ["description"; "markdownDescription"] ->
             allInside P o -> allInside P (obj_set k v o)).
  { intros k v o Hk Ho. apply allInside_set; [|assumption].
    apply allInside_plain; simpl in *; intuition (subst; discriminate). }
  unfold describe. cbv zeta.
  destruct (ownDescription schema _),
    (truthyMember "description" (defaultBlock (OfField f) [])),
    (useMarkdownDescription options);
    repeat (apply Hset; [simpl; tauto|]); exact Hdef.
Qed.

Lemma fieldProperty_mirrored field typeDefinition fieldDefinition :
  types (field_type field) ->
  allInside mirrored typeDefinition ->
  allInside mirrored fieldDefinition ->
  allFragments mirrored
    (JObject (fieldProperty options field typeDefinition fieldDefinition)).
Proof.
  intros Hfield Ht Hf. unfold fieldProperty.
  rewrite markdown_on, renderTypeToString_markdown.
  apply mirrored_set; [assumption| |].
  - intros v Hv. eapply In_obj_set_same; eauto.
    apply obj_spread_NoDup, obj_spread_NoDup. constructor.
  - apply allInside_set;
      [apply allInside_plain; simpl; intuition discriminate|].
    repeat apply allInside_spread; auto using allInside_nil.
Qed.

Lemma document_mirrored properties requiredVariables defs :
  allEntries mirrored properties ->
  allEntries mirrored (entriesOf defs) ->
  allFragments mirrored
    (JObject (document properties requiredVariables defs)).
Proof.
  intros Hp Hd. unfold document. apply allFragments_object.
  - intros o v [= <-] Hin. exfalso.
    destruct defs; simpl in Hin;
      repeat (destruct Hin as [Hin|Hin]; [discriminate Hin|]);
      destruct Hin.
  - destruct defs as [d|]; simpl; inside_each;
      try (apply allInside_plain; simpl; intuition discriminate);
      apply allInside_map; simpl; auto; intuition discriminate.
Qed.

Lemma mirrored_Synth_Fields :
  (forall type isNonNull marker result marker' written,
      Synth schema options type isNonNull marker result marker' written ->
      forall t, type = OfType t -> types t ->
        mirroredIn types isNonNull (definition result) /\
        allEntries mirrored (definitions result)) /\
  (forall fields properties requiredFields defs marker
          properties' requiredFields' defs' marker' written,
      Fields schema options fields properties requiredFields defs marker
        properties' requiredFields' defs' marker' written ->
      (forall field, In field fields -> types (field_type field)) ->
      allEntries mirrored properties ->
      allEntries mirrored defs ->
      allEntries mirrored properties' /\ allEntries mirrored defs').
Proof.
  apply Synth_Fields_mutind.
  - intros f isNonNull marker t [=].
  - intros name d values isNonNull marker t [= <-] Ht.
    split; [|apply allEntries_nil]. apply finish_bare; [assumption|].
    unfold enumBlock. bareness.
  - intros name d isNonNull marker def Hs Hdesc t [= <-] Ht.
    split; [|apply allEntries_nil]. apply finish_bare; [assumption|].
    eapply scalarBlock_bare; eauto.
  - intros ofType isNonNull marker inner marker' written HS IH t [= <-] Ht.
    destruct (IH ofType eq_refl (types_items _ Ht)) as [Hd He]. split.
    + apply finish_bare; [assumption|]. apply bare_set; [|bareness].
      apply bare_one; [discriminate|].
      apply allInside_items. now apply listItems_mirrored.
    + simpl. apply allEntries_spread; auto using allEntries_nil.
  - intros ofType isNonNull marker inner marker' written HS IH Hdesc
      t [= <-] Ht.
    destruct (IH ofType eq_refl (types_wrapped _ Ht)) as [Hd He]. split.
    + now apply finish_bare.
    + simpl. apply allEntries_spread; auto using allEntries_nil.
  - intros name isNonNull marker M t [= <-] Ht.
    split; [|apply allEntries_nil]. apply finish_bare; [assumption|].
    apply referenceBlock_bare.
  - intros name isNonNull marker properties requiredFields defs marker'
      written M HF IH t [= <-] Ht.
    destruct IH as [Hp Hd]; try apply allEntries_nil.
    { intros field Hin. eapply types_fields; eauto. }
    split.
    + apply finish_bare; [assumption|]. apply referenceBlock_bare.
    + simpl. apply allEntries_set; [|assumption].
      now apply fieldDefOf_mirrored.
  - intros; split; assumption.
  - intros field rest properties requiredFields defs marker ofType marker1
      written1 ofField marker2 written2 properties' requiredFields' defs'
      marker' written' HS1 IH1 HS2 IH2 HF IHF Ht Hp Hd.
    destruct (IH1 _ eq_refl (Ht field (or_introl eq_refl))) as [Hd1 He1].
    inversion HS2; subst.
    apply IHF.
    + intros f Hf. apply Ht. now right.
    + apply allEntries_assign; [|assumption].
      apply fieldProperty_mirrored.
      * apply Ht. now left.
      * now apply allFragments_inside.
      * apply field_inside.
    + now apply allEntries_spread.
Qed.

Lemma mirrored_Variables :
  forall entries properties requiredVariables defs marker
         properties' requiredVariables' defs' marker' written,
    Variables schema options entries properties requiredVariables defs
      marker properties' requiredVariables' defs' marker' written ->
    (forall variableName type,
        In (variableName, type) entries -> types type) ->
    allEntries mirrored properties ->
    allEntries mirrored (entriesOf defs) ->
    allEntries mirrored properties' /\
    allEntries mirrored (entriesOf defs').
Proof.
  induction 1 as [|variableName type rest p rq defs m result m1 w1 p' rq'
                    defs' m' w' HS HV IH]; intros Ht Hp Hd.
  - split; assumption.
  - destruct (proj1 mirrored_Synth_Fields _ _ _ _ _ _ HS type eq_refl)
      as [Hd1 He1]; [eapply Ht; now left|].
    apply IH.
    + intros v t Hin. eapply Ht. right. eassumption.
    + now apply allEntries_assign.
    + simpl. apply allEntries_spread; [|assumption].
      apply allEntries_spread; [apply allEntries_nil|assumption].
Qed.

End Markdown.




(* ================================================================= *)
(** ** Further properties: the marker and the renderer *)

(** X1.  [Marker.mark] answers whether the name is new; afterwards the
    marker holds the name and what it held before, nothing else, a second
    [mark] of the name answers [false] and changes nothing, and a marker
    without duplicates stays so. *)
Theorem mark_once name set other :
  fst (mark name set) = negb (marked name set) /\
  marked other (snd (mark name set)) = (other =? name) || marked other set /\
  mark name (snd (mark name set)) = (false, snd (mark name set)) /\
  (NoDup set -> NoDup (snd (mark name set))).
Proof.
  assert (Happ : forall x, marked x (set ++ [name])
                           = (x =? name) || marked x set).
  { intros x. unfold marked. rewrite existsb_app. simpl.
    rewrite orb_false_r. apply orb_comm. }
  unfold mark. destruct (marked name set) eqn:M; simpl.
  - split; [reflexivity|]. split; [|split].
    + destruct (other =? name) eqn:E; [|reflexivity].
      apply String.eqb_eq in E. subst. now rewrite M.
    + now rewrite M.
    + auto.
  - split; [reflexivity|]. split; [|split].
    + apply Happ.
    + rewrite Happ, String.eqb_refl. reflexivity.
    + intros ND. apply NoDup_app; [assumption|repeat constructor; intros []|].
      intros x Hx [<-|[]]. apply marked_not_In in M. contradiction.
Qed.

Lemma mark_once_witness :
  NoDup ["Node"] /\
  fst (mark "Edge" ["Node"]) = negb (marked "Edge" ["Node"]) /\
  marked "Node" (snd (mark "Edge" ["Node"]))
  = ("Node" =? "Edge") || marked "Node" ["Node"] /\
  mark "Edge" (snd (mark "Edge" ["Node"]))
  = (false, snd (mark "Edge" ["Node"])) /\
  (NoDup ["Node"] -> NoDup (snd (mark "Edge" ["Node"]))).
Proof.
  split; [repeat constructor; intros []|].
  exact (mark_once "Edge" ["Node"] "Node").
Defined.

(** X2.  The renderer only appends to [into], and the text of a type is
    its name within its wrappers: [!] after a non-null type, brackets
    around the items of a list; of a field it is the name of the field. *)
Theorem renderType_wrappers (t : GraphQLInputType) (into : list string)
  (name : string) (description : option string) (values : list string)
  (f : GraphQLInputField) :
  renderType into t = into ++ renderType [] t /\
  renderTypeToString (OfType (GraphQLNonNull t)) false
  = renderTypeToString (OfType t) false ^^ "!" /\
  renderTypeToString (OfType (GraphQLList t)) false
  = "[" ^^ renderTypeToString (OfType t) false ^^ "]" /\
  renderTypeToString (OfType (GraphQLScalarType name description)) false
  = name /\
  renderTypeToString (OfType (GraphQLEnumType name description values)) false
  = name /\
  renderTypeToString (OfType (GraphQLInputObjectType name)) false = name /\
  renderTypeToString (OfField f) false = field_name f.
Proof.
  split; [apply renderType_into|].
  unfold renderTypeToString. simpl. unfold text.
  split; [now rewrite concat_app|]. split; [|repeat split].
  rewrite (renderType_into t ([] ++ ["["])), !concat_app. reflexivity.
Qed.

(** X3.  The markdown rendering of a type or field is its plain rendering
    within the fence of a [graphql] code block. *)
Theorem renderTypeToString_fenced (t : TypeOrField) :
  renderTypeToString t true
  = "```graphql" ^^ nl ^^ renderTypeToString t false ^^ nl ^^ "```".
Proof. exact (renderTypeToString_markdown t). Qed.

(* ================================================================= *)
(** ** Further properties: scalars and enums *)

Lemma builtinScalars_scalarTypesMap name tag :
  In (name, tag) builtinScalars -> scalarTypesMap name = Some tag.
Proof.
  intros H. simpl in H.
  repeat (destruct H as [[= <- <-]|H]; [reflexivity|]). destruct H.
Qed.

(** X4.  A built-in scalar maps to the tag of the table: in the non-null
    context to the tag alone, in a nullable context to the tag and
    ['null'], described by the name of the scalar.  An override that
    [customScalarSchemas] holds for the name of a built-in scalar is never
    looked at. *)
Theorem builtin_scalar schema options name tag description fuel marker :
  In (name, tag) builtinScalars ->
  getJSONSchemaFromGraphQLType schema options (S fuel)
    (OfType (GraphQLScalarType name description)) true marker
  = Ok ({| definition := [("type", JString tag)];
           required := false;
           definitions := [] |}, marker) /\
  getJSONSchemaFromGraphQLType schema options (S fuel)
    (OfType (GraphQLScalarType name description)) false marker
  = Ok ({| definition :=
             [("type", JArray [JString tag; JString "null"]);
              ("description", JString name)]
             ++ (if useMarkdownDescription options
                 then [("markdownDescription",
                         JString ("```graphql" ^^ nl ^^ name ^^ nl ^^ "```"))]
                 else []);
           required := false;
           definitions := [] |}, marker).
Proof.
  intros H. apply builtinScalars_scalarTypesMap in H.
  simpl. unfold scalarBlock. rewrite H. simpl. split; [reflexivity|].
  unfold finish, describe. simpl.
  destruct (useMarkdownDescription options); reflexivity.
Qed.

Lemma builtin_scalar_witness :
  In ("Int", "integer") builtinScalars /\
  getJSONSchemaFromGraphQLType [] strayOptions 1
    (OfType (GraphQLScalarType "Int" None)) true []
  = Ok ({| definition := [("type", JString "integer")];
           required := false;
           definitions := [] |}, []) /\
  getJSONSchemaFromGraphQLType [] strayOptions 1
    (OfType (GraphQLScalarType "Int" None)) false []
  = Ok ({| definition :=
             [("type", JArray [JString "integer"; JString "null"]);
              ("description", JString "Int")]
             ++ (if useMarkdownDescription strayOptions
                 then [("markdownDescription",
                         JString ("```graphql" ^^ nl ^^ "Int" ^^ nl ^^ "```"))]
                 else []);
           required := false;
           definitions := [] |}, []).
Proof.
  assert (H : In ("Int", "integer") builtinScalars) by (left; reflexivity).
  split; [exact H|].
  exact (builtin_scalar [] strayOptions "Int" "integer" None 0 [] H).
Defined.





(** X18.  The description block throws on an override whose description
    has no text.  For a custom scalar (a name for which line 157 finds
    nothing, neither in the table nor inherited from [Object.prototype])
    whose override has a truthy [description] that cannot be converted to
    a string, the call on its non-null type in a nullable context, the
    context of a variable, throws (the [+=] of line 325), and with it the
    aggregator, for every variable map that starts with such a variable,
    whatever else the override holds. *)
Theorem description_throws schema options name custom description fuel marker
  current variableName rest :
  scalarTypesMap name = None ->
  ~ In name inheritedNames ->
  lookup name (customScalarSchemas options) = Some custom ->
  truthyMember "description" custom = Some current ->
  convertible current = false ->
  getJSONSchemaFromGraphQLType schema options (S (S fuel))
    (OfType (GraphQLNonNull (GraphQLScalarType name description))) false
    marker = TypeError /\
  getVariablesJSONSchema schema options
    ((variableName, GraphQLNonNull (GraphQLScalarType name description))
       :: rest) = TypeError.
Proof.
  intros Hmap _ Hcustom Hcurrent Htext.
  assert (Hcall : forall budget m,
             getJSONSchemaFromGraphQLType schema options (S (S budget))
               (OfType (GraphQLNonNull (GraphQLScalarType name description)))
               false m
             = TypeError).
  { intros budget m.
    cbn [getJSONSchemaFromGraphQLType defaultBlock]. unfold scalarBlock.
    rewrite Hmap, Hcustom. cbn [bind orb describable finish definition].
    unfold describable. rewrite Hcurrent, Htext. reflexivity. }
  split; [apply Hcall|].
  unfold getVariablesJSONSchema. cbn [variablesLoop]. unfold fuelFor.
  cbn [typeSize Nat.add]. rewrite Hcall. reflexivity.
Qed.

Lemma description_throws_witness :
  getJSONSchemaFromGraphQLType [] stampOptions 2
    (OfType (GraphQLNonNull (GraphQLScalarType "Stamp" None))) false []
  = TypeError /\
  getVariablesJSONSchema [] stampOptions
    [("at", GraphQLNonNull (GraphQLScalarType "Stamp" None));
     ("id", GraphQLNonNull GraphQLID)] = TypeError.
Proof.
  apply (description_throws [] stampOptions "Stamp"
           [("type", JString "string");
            ("description", JObject [("toString", JNull)])]
           None 0 [] (JObject [("toString", JNull)]) "at"
           [("id", GraphQLNonNull GraphQLID)]).
  - reflexivity.
  - simpl. intuition discriminate.
  - reflexivity.
  - reflexivity.
  - reflexivity.
Defined.

(** X7.  The fragment of an enum lists the names of its values, followed by
    [null] unless the context is non-null; it has no type tag and
    registers nothing.  In a nullable context its description is that of
    the enum, if it has one, and the name of the enum. *)
Theorem enum_fragment schema options name description values isNonNull fuel
  marker :
  exists result,
    getJSONSchemaFromGraphQLType schema options (S fuel)
      (OfType (GraphQLEnumType name description values)) isNonNull marker
    = Ok (result, marker) /\
    obj_get "enum" (definition result)
    = Some (JArray (map JString values
                    ++ if isNonNull then [] else [JNull])) /\
    obj_get "type" (definition result) = None /\
    obj_get "description" (definition result)
    = (if isNonNull then None
       else Some (JString (described description name))) /\
    required result = false /\
    definitions result = [].
Proof.
  eexists. split.
  { simpl. rewrite describable_plain by reflexivity. reflexivity. }
  unfold finish. cbn [definition].
  destruct isNonNull.
  - repeat split.
  - rewrite !obj_get_describe by discriminate.
    split; [reflexivity|]. split; [reflexivity|]. split; [|split; reflexivity].
    unfold describe, described. cbn [ownDescription].
    unfold truthyMember, enumBlock. simpl obj_get.
    destruct (truthyString description);
      destruct (useMarkdownDescription options); reflexivity.
Qed.

(* ================================================================= *)
(** ** Further properties: what a call returns *)

Section Calls.

Variable schema : Schema.
Variable options : JSONSchemaOptions.

Lemma Synth_required type isNonNull marker result marker' written :
  Synth schema options type isNonNull marker result marker' written ->
  required result
  = match type with OfType t => isNonNullType t | OfField _ => false end.
Proof. intros H. destruct H; reflexivity. Qed.

Lemma describe_description type def :
  exists prefix,
    obj_get "description" (describe schema options type def)
    = Some (JString (prefix ^^ renderTypeToString type false)).
Proof.
  assert (Hmd : forall v o,
             obj_get "description" (obj_set "markdownDescription" v o)
             = obj_get "description" o).
  { intros v o. now rewrite obj_get_set. }
  unfold describe. cbv zeta.
  destruct (ownDescription schema _) as [d|],
    (truthyMember "description" def) as [current|].
  - exists (js_toString current ^^ nl).
    destruct (useMarkdownDescription options);
      rewrite ?Hmd, obj_get_set_same, append_associative; reflexivity.
  - exists (d ^^ nl).
    destruct (useMarkdownDescription options);
      rewrite ?Hmd, obj_get_set_same, append_associative; reflexivity.
  - exists (js_toString current ^^ nl).
    destruct (useMarkdownDescription options);
      rewrite ?Hmd, obj_get_set_same, append_associative; reflexivity.
  - exists "".
    destruct (useMarkdownDescription options);
      rewrite ?Hmd, obj_get_set_same; reflexivity.
Qed.

Lemma Synth_finish type isNonNull marker result marker' written :
  Synth schema options type isNonNull marker result marker' written ->
  exists def,
    definition result = if isNonNull then def else describe schema options
                                                      type def.
Proof. intros H. destruct H; eexists; reflexivity. Qed.

Lemma Synth_fragment :
  forall type isNonNull marker result marker' written,
    Synth schema options type isNonNull marker result marker' written ->
    forall marker0 result0 marker0' written0,
      Synth schema options type isNonNull marker0 result0 marker0' written0 ->
      definition result = definition result0.
Proof.
  apply (Synth_Fields_ind schema options
           (fun type isNonNull marker result marker' written =>
              forall marker0 result0 marker0' written0,
                Synth schema options type isNonNull marker0 result0 marker0'
                  written0 ->
                definition result = definition result0)
           (fun _ _ _ _ _ _ _ _ _ _ => True)); intros; auto.
  - inversion H; subst. reflexivity.
  - inversion H; subst. reflexivity.
  - inversion H1; subst.
    match goal with
    | Hs : scalarBlock _ _ _ _ = Ok ?d |- _ =>
        rewrite H in Hs; injection Hs as <-
    end. reflexivity.
  - inversion H1; subst. unfold finish. cbn [definition].
    match goal with
    | Hs : Synth _ _ (OfType ofType) false _ _ _ _ |- _ =>
        rewrite (H0 _ _ _ _ Hs)
    end. reflexivity.
  - inversion H2; subst. unfold finish. cbn [definition].
    match goal with
    | Hs : Synth _ _ (OfType ofType) true _ _ _ _ |- _ =>
        rewrite (H0 _ _ _ _ Hs)
    end. reflexivity.
  - inversion H0; subst; reflexivity.
  - inversion H2; subst; reflexivity.
Qed.

End Calls.

(** X8.  A returned call reports [required] exactly for a non-null
    wrapper: [true] for [NonNull], [false] for every other type and for a
    field. *)
Theorem required_iff_nonNull schema options fuel type isNonNull marker result
  marker' :
  getJSONSchemaFromGraphQLType schema options fuel type isNonNull marker
  = Ok (result, marker') ->
  required result
  = match type with OfType t => isNonNullType t | OfField _ => false end.
Proof.
  intros H. apply getJSONSchemaFromGraphQLType_Synth in H as [w H].
  eapply Synth_required; eauto.
Qed.

Lemma required_iff_nonNull_witness :
  exists result marker',
    getJSONSchemaFromGraphQLType graphSchema defaultJSONSchemaOptions 9
      (OfType (GraphQLNonNull (GraphQLList (GraphQLInputObjectType "Node"))))
      false [] = Ok (result, marker') /\
    required result
    = isNonNullType
        (GraphQLNonNull (GraphQLList (GraphQLInputObjectType "Node"))).
Proof.
  do 2 eexists. split; [vm_compute; reflexivity|].
  apply (required_iff_nonNull graphSchema defaultJSONSchemaOptions 9
           (OfType
              (GraphQLNonNull (GraphQLList (GraphQLInputObjectType "Node"))))
           false []
           _ ["Node"; "Edge"]).
  vm_compute. reflexivity.
Defined.

(** X9.  Every fragment synthesized in a nullable context has a
    description, a string that ends with the rendered type (for a field,
    with its name), whatever the type and whatever an override holds. *)
Theorem nullable_description schema options fuel type marker result marker' :
  getJSONSchemaFromGraphQLType schema options fuel type false marker
  = Ok (result, marker') ->
  exists prefix,
    obj_get "description" (definition result)
    = Some (JString (prefix ^^ renderTypeToString type false)).
Proof.
  intros H. apply getJSONSchemaFromGraphQLType_Synth in H as [w H].
  destruct (Synth_finish _ _ _ _ _ _ _ _ H) as [def ->].
  apply describe_description.
Qed.

Lemma nullable_description_witness :
  exists result marker',
    getJSONSchemaFromGraphQLType [] tagOptions 2
      (OfType (GraphQLNonNull (GraphQLScalarType "Tag" None))) false []
    = Ok (result, marker') /\
    exists prefix,
      obj_get "description" (definition result)
      = Some (JString
                (prefix
                 ^^ renderTypeToString
                      (OfType (GraphQLNonNull (GraphQLScalarType "Tag" None)))
                      false)).
Proof.
  do 2 eexists. split; [vm_compute; reflexivity|].
  apply (nullable_description [] tagOptions 2
           (OfType (GraphQLNonNull (GraphQLScalarType "Tag" None))) []
           _ []).
  vm_compute. reflexivity.
Defined.

(** X10.  The fragment and the required flag of a call do not depend on
    what the marker holds: the marker decides where a definition is
    registered, not what an occurrence looks like. *)
Theorem fragment_ignores_marker schema options fuel fuel0 type isNonNull
  marker marker0 result result0 marker' marker0' :
  getJSONSchemaFromGraphQLType schema options fuel type isNonNull marker
  = Ok (result, marker') ->
  getJSONSchemaFromGraphQLType schema options fuel0 type isNonNull marker0
  = Ok (result0, marker0') ->
  definition result = definition result0 /\
  required result = required result0.
Proof.
  intros H H0.
  apply getJSONSchemaFromGraphQLType_Synth in H as [w H].
  apply getJSONSchemaFromGraphQLType_Synth in H0 as [w0 H0].
  split.
  - eapply Synth_fragment; eauto.
  - rewrite (Synth_required _ _ _ _ _ _ _ _ H).
    now rewrite (Synth_required _ _ _ _ _ _ _ _ H0).
Qed.

Lemma fragment_ignores_marker_witness :
  exists result result0 marker' marker0',
    getJSONSchemaFromGraphQLType graphSchema defaultJSONSchemaOptions 9
      (OfType (GraphQLList (GraphQLInputObjectType "Node"))) false []
    = Ok (result, marker') /\
    getJSONSchemaFromGraphQLType graphSchema defaultJSONSchemaOptions 2
      (OfType (GraphQLList (GraphQLInputObjectType "Node"))) false
      ["Node"] = Ok (result0, marker0') /\
    definition result = definition result0 /\
    required result = required result0.
Proof.
  do 4 eexists. split; [vm_compute; reflexivity|].
  split; [vm_compute; reflexivity|].
  apply (fragment_ignores_marker graphSchema defaultJSONSchemaOptions 9 2
           (OfType (GraphQLList (GraphQLInputObjectType "Node"))) false
           [] ["Node"] _ _ ["Node"; "Edge"] ["Node"]);
    vm_compute; reflexivity.
Defined.

(** X11.  A returned call leaves the marker as it was followed by the
    names it has marked, each of them new and once, and the definitions it
    returns have exactly these names as keys: it returns a definition for
    a name if and only if it is the call that marks it. *)
Theorem call_registers_marked schema options fuel type isNonNull marker result
  marker' :
  getJSONSchemaFromGraphQLType schema options fuel type isNonNull marker
  = Ok (result, marker') ->
  exists new,
    marker' = marker ++ new /\
    NoDup new /\
    (forall name, In name new -> ~ In name marker) /\
    Permutation (obj_keys (definitions result)) new.
Proof.
  intros H. apply getJSONSchemaFromGraphQLType_Synth in H as [w H].
  destruct (proj1 (registered_Synth_Fields schema options) _ _ _ _ _ _ H)
    as (new & (E & ND & D) & HP & _).
  exists new. auto.
Qed.

Lemma call_registers_marked_witness :
  exists result marker',
    getJSONSchemaFromGraphQLType graphSchema defaultJSONSchemaOptions 9
      (OfType (GraphQLInputObjectType "Edge")) false ["Other"]
    = Ok (result, marker') /\
    exists new,
      marker' = ["Other"] ++ new /\
      NoDup new /\
      (forall name, In name new -> ~ In name ["Other"]) /\
      Permutation (obj_keys (definitions result)) new.
Proof.
  do 2 eexists. split; [vm_compute; reflexivity|].
  apply (call_registers_marked graphSchema defaultJSONSchemaOptions 9
           (OfType (GraphQLInputObjectType "Edge")) false ["Other"]
           _ ["Other"; "Edge"; "Node"]).
  vm_compute. reflexivity.
Defined.

(** X12.  The wrappers pass on what the wrapped type registers.  A call on
    a list that returns has made the call on its items in a nullable
    context: it returns the type tag [array], with ['null'] in a nullable
    context, the definitions of that call, and it is not required.  A
    call on a non-null type that returns has made the call on the wrapped
    type in the non-null context: it returns, as required, the fragment
    of that call, described when the wrapper is in a nullable context,
    and the definitions of that call. *)
Theorem wrappers_pass_definitions schema options fuel ofType isNonNull marker
  result marker' :
  (getJSONSchemaFromGraphQLType schema options (S fuel)
     (OfType (GraphQLList ofType)) isNonNull marker = Ok (result, marker') ->
   exists items,
     getJSONSchemaFromGraphQLType schema options fuel (OfType ofType) false
       marker = Ok (items, marker') /\
     obj_get "type" (definition result)
     = Some (if isNonNull then JString "array"
             else JArray [JString "array"; JString "null"]) /\
     definitions result = definitions items /\
     required result = false) /\
  (getJSONSchemaFromGraphQLType schema options (S fuel)
     (OfType (GraphQLNonNull ofType)) isNonNull marker
   = Ok (result, marker') ->
   exists inner,
     getJSONSchemaFromGraphQLType schema options fuel (OfType ofType) true
       marker = Ok (inner, marker') /\
     definition result
     = (if isNonNull then definition inner
        else describe schema options (OfType (GraphQLNonNull ofType))
               (definition inner)) /\
     definitions result = definitions inner /\
     required result = true).
Proof.
  assert (Hcopy : forall f b m r m',
             getJSONSchemaFromGraphQLType schema options f (OfType ofType) b m
             = Ok (r, m') ->
             obj_spread [] (definitions r) = definitions r).
  { intros f b m1 r m1' Hr.
    apply getJSONSchemaFromGraphQLType_Synth in Hr as [w Hr].
    destruct (proj1 (registered_Synth_Fields schema options) _ _ _ _ _ _ Hr)
      as (new & (_ & ND & _) & HP & _).
    eapply copy_definitions; eauto. }
  split; intros H; simpl in H.
  - destruct (getJSONSchemaFromGraphQLType schema options fuel
                (OfType ofType) false marker) as [[items m]| |] eqn:E;
      simpl in H; [|discriminate..].
    rewrite describable_plain in H by reflexivity.
    injection H as <- <-.
    exists items. split; [reflexivity|]. unfold finish.
    cbn [definition definitions required].
    split; [|split; [eapply Hcopy; eauto|reflexivity]].
    destruct isNonNull; [reflexivity|].
    rewrite obj_get_describe by discriminate. reflexivity.
  - destruct (getJSONSchemaFromGraphQLType schema options fuel
                (OfType ofType) true marker) as [[inner m]| |] eqn:E;
      simpl in H; [|discriminate..].
    destruct (describable isNonNull (definition inner)); [|discriminate H].
    injection H as <- <-.
    exists inner. split; [reflexivity|]. unfold finish.
    cbn [definition definitions required].
    split; [reflexivity|]. split; [eapply Hcopy; eauto|reflexivity].
Qed.

Lemma wrappers_pass_definitions_witness :
  (exists list marker' items,
      getJSONSchemaFromGraphQLType graphSchema defaultJSONSchemaOptions 9
        (OfType (GraphQLList (GraphQLInputObjectType "Edge"))) false []
      = Ok (list, marker') /\
      getJSONSchemaFromGraphQLType graphSchema defaultJSONSchemaOptions 8
        (OfType (GraphQLInputObjectType "Edge")) false []
      = Ok (items, marker') /\
      obj_get "type" (definition list)
      = Some (JArray [JString "array"; JString "null"]) /\
      definitions list = definitions items /\
      required list = false) /\
  (exists nonNull marker' inner,
      getJSONSchemaFromGraphQLType [] strayOptions 2
        (OfType (GraphQLNonNull (GraphQLScalarType "Odd" None))) false []
      = Ok (nonNull, marker') /\
      getJSONSchemaFromGraphQLType [] strayOptions 1
        (OfType (GraphQLScalarType "Odd" None)) true []
      = Ok (inner, marker') /\
      definition nonNull
      = describe [] strayOptions
          (OfType (GraphQLNonNull (GraphQLScalarType "Odd" None)))
          (definition inner) /\
      definitions nonNull = definitions inner /\
      required nonNull = true).
Proof.
  split.
  - do 2 eexists.
    assert (H : getJSONSchemaFromGraphQLType graphSchema
                  defaultJSONSchemaOptions 9
                  (OfType (GraphQLList (GraphQLInputObjectType "Edge")))
                  false []
                = Ok _) by (vm_compute; reflexivity).
    destruct (proj1 (wrappers_pass_definitions graphSchema
                       defaultJSONSchemaOptions 8
                       (GraphQLInputObjectType "Edge") false [] _ _) H)
      as (items & H1 & H2 & H3 & H4).
    exists items. repeat split; assumption.
  - do 2 eexists.
    assert (H : getJSONSchemaFromGraphQLType [] strayOptions 2
                  (OfType (GraphQLNonNull (GraphQLScalarType "Odd" None)))
                  false []
                = Ok _) by (vm_compute; reflexivity).
    destruct (proj2 (wrappers_pass_definitions [] strayOptions 1
                       (GraphQLScalarType "Odd" None) false [] _ _) H)
      as (inner & H1 & H2 & H3 & H4).
    exists inner. repeat split; assumption.
Defined.

(* ================================================================= *)
(** ** Further properties: only what is reached is registered *)

Section Reached.

Variable schema : Schema.
Variable options : JSONSchemaOptions.

Lemma reached_Synth_Fields :
  (forall type isNonNull marker result marker' written,
      Synth schema options type isNonNull marker result marker' written ->
      forall name, In name marker' ->
        In name marker \/
        exists t, type = OfType t /\ reaches schema t name) /\
  (forall fields properties requiredFields defs marker
          properties' requiredFields' defs' marker' written,
      Fields schema options fields properties requiredFields defs marker
        properties' requiredFields' defs' marker' written ->
      forall name, In name marker' ->
        In name marker \/
        exists field, In field fields /\
                      reaches schema (field_type field) name).
Proof.
  apply Synth_Fields_mutind; intros; auto.
  - destruct (H0 _ H1) as [Hm|(t & [= <-] & Hr)]; [now left|].
    right. eexists. split; [reflexivity|]. now constructor.
  - destruct (H0 _ H2) as [Hm|(t & [= <-] & Hr)]; [now left|].
    right. eexists. split; [reflexivity|]. now constructor.
  - destruct (H1 _ H2) as [Hm|(field & Hin & Hr)].
    + apply in_app_or in Hm as [Hm|[<-|[]]]; [now left|].
      right. eexists. split; [reflexivity|]. constructor.
    + right. eexists. split; [reflexivity|].
      eapply reaches_field; eauto.
  - destruct (H4 _ H5) as [Hm|(f & Hin & Hr)].
    + destruct (H2 _ Hm) as [Hm1|(t & [=] & _)].
      destruct (H0 _ Hm1) as [Hm0|(t & [= <-] & Hr)]; [now left|].
      right. exists field. split; [now left|assumption].
    + right. exists f. split; [now right|assumption].
Qed.

Lemma reached_Variables :
  forall entries properties requiredVariables defs marker
         properties' requiredVariables' defs' marker' written,
    Variables schema options entries properties requiredVariables defs
      marker properties' requiredVariables' defs' marker' written ->
    forall name, In name marker' ->
      In name marker \/
      exists variableName type,
        In (variableName, type) entries /\ reaches schema type name.
Proof.
  induction 1 as [|variableName type rest p rq defs m result m1 w1 p' rq'
                    defs' m' w' HS HV IH]; intros name Hin; [now left|].
  destruct (IH _ Hin) as [Hm|(v & t & Hvt & Hr)].
  - destruct (proj1 reached_Synth_Fields _ _ _ _ _ _ HS _ Hm)
      as [Hm0|(t & [= <-] & Hr)]; [now left|].
    right. exists variableName, type. split; [now left|assumption].
  - right. exists v, t. split; [now right|assumption].
Qed.

End Reached.

(** X13.  The keys of the definitions of the document are exactly the input
    object types that the variables reach: nothing unreachable is
    registered, nothing reachable is left out. *)
Theorem definitions_are_the_reached schema options variableToType doc name :
  getVariablesJSONSchema schema options variableToType = Ok doc ->
  (exists defs,
      obj_get "definitions" doc = Some (JObject defs) /\
      In name (obj_keys defs)) <->
  (exists variableName type,
      In (variableName, type) variableToType /\ reaches schema type name).
Proof.
  intros H.
  destruct (getVariablesJSONSchema_inv _ _ _ _ H)
    as (p & rq & defs & m & w & HL & HV & ->).
  destruct (Variables_written _ _ _ _ _ _ _ _ HV)
    as (_ & HWM & HWK & _ & Hreach).
  assert (Hkeys : forall n, In n (obj_keys (entriesOf defs)) <-> In n m).
  { intros n. split; intros Hn.
    - apply (Permutation_in _ HWM), (Permutation_in _ (Permutation_sym HWK)).
      assumption.
    - apply (Permutation_in _ HWK), (Permutation_in _ (Permutation_sym HWM)).
      assumption. }
  split.
  - intros (d & Hd & Hn). destruct defs as [d0|]; [|discriminate Hd].
    injection Hd as ->.
    destruct (reached_Variables _ _ _ _ _ _ _ _ _ _ _ _ HV name) as [[]|Hr];
      [now apply Hkeys | exact Hr].
  - intros (v & t & Hvt & Hr).
    assert (Hn : In name (obj_keys (entriesOf defs)))
      by (apply Hkeys; eapply Hreach; eauto).
    destruct defs as [d|]; [|destruct Hn].
    exists d. split; [reflexivity|assumption].
Qed.

Lemma definitions_are_the_reached_witness :
  exists doc,
    getVariablesJSONSchema graphSchema defaultJSONSchemaOptions
      [("edge", GraphQLInputObjectType "Edge")] = Ok doc /\
    ((exists defs,
         obj_get "definitions" doc = Some (JObject defs) /\
         In "Node" (obj_keys defs)) <->
     (exists variableName type,
         In (variableName, type) [("edge", GraphQLInputObjectType "Edge")] /\
         reaches graphSchema type "Node")).
Proof.
  eexists. split; [vm_compute; reflexivity|].
  apply (definitions_are_the_reached graphSchema defaultJSONSchemaOptions
           [("edge", GraphQLInputObjectType "Edge")]).
  vm_compute. reflexivity.
Defined.

(* ================================================================= *)
(** ** Further properties: properties and required lists *)

Lemma obj_keys_set_fresh k v o :
  ~ In k (obj_keys o) -> obj_keys (obj_set k v o) = obj_keys o ++ [k].
Proof.
  intros H. rewrite obj_set_fresh by assumption.
  unfold obj_keys. now rewrite map_app.
Qed.

Lemma obj_get_set_other k k' v o :
  k <> k' -> obj_get k' (obj_set k v o) = obj_get k' o.
Proof.
  intros H. rewrite obj_get_set.
  destruct (k =? k') eqn:E; [|reflexivity].
  apply String.eqb_eq in E. contradiction.
Qed.

Lemma obj_get_spread_absent k a b :
  ~ In k (obj_keys b) -> obj_get k (obj_spread a b) = obj_get k a.
Proof.
  unfold obj_spread. revert a.
  induction b as [|[k0 v0] rest IH]; simpl; intros a H; [reflexivity|].
  rewrite IH by tauto. apply obj_get_set_other. intros ->. tauto.
Qed.

Lemma obj_get_spread_present k v a b :
  NoDup (obj_keys b) -> obj_get k b = Some v ->
  obj_get k (obj_spread a b) = Some v.
Proof.
  unfold obj_spread. revert a.
  induction b as [|[k0 v0] rest IH]; simpl; intros a ND H; [discriminate|].
  inversion ND as [|? ? Hk ND']; subst.
  destruct (k0 =? k) eqn:E.
  - apply String.eqb_eq in E. subst k0. injection H as ->.
    fold (obj_spread (obj_set k v a) rest).
    rewrite obj_get_spread_absent by assumption.
    apply obj_get_set_same.
  - now apply IH.
Qed.

Lemma NoDup_app_cons {A : Type} (xs ys : list A) (y : A) :
  NoDup (xs ++ y :: ys) -> ~ In y xs /\ ~ In y ys /\ NoDup ((xs ++ [y]) ++ ys).
Proof.
  intros H. pose proof (NoDup_remove_2 _ _ _ H) as Hy.
  split; [intros Hin; apply Hy, in_or_app; now left|].
  split; [intros Hin; apply Hy, in_or_app; now right|].
  now rewrite <- app_assoc.
Qed.

Section Shapes.

Variable schema : Schema.
Variable options : JSONSchemaOptions.

Lemma describe_NoDup type def :
  NoDup (obj_keys def) ->
  NoDup (obj_keys (describe schema options type def)).
Proof.
  intros H. unfold describe. cbv zeta.
  destruct (ownDescription schema _), (truthyMember "description" def),
    (useMarkdownDescription options);
    repeat apply obj_set_NoDup; assumption.
Qed.

Lemma field_call type marker ofField marker' written field :
  type = OfField field ->
  Synth schema options type false marker ofField marker' written ->
  marker' = marker /\
  NoDup (obj_keys (definition ofField)) /\
  obj_get "default" (definition ofField) = field_defaultValue field.
Proof.
  intros -> H. inversion H; subst. split; [reflexivity|].
  unfold finish. cbn [definition]. split.
  - apply describe_NoDup. unfold defaultBlock.
    destruct (field_defaultValue field); repeat constructor. intros [].
  - rewrite obj_get_describe by discriminate. unfold defaultBlock.
    destruct (field_defaultValue field); reflexivity.
Qed.

Lemma fieldProperty_description field typeDefinition fieldDefinition :
  obj_get "description"
    (fieldProperty options field typeDefinition fieldDefinition)
  = Some (JString (described (field_description field)
                     (renderTypeToString (OfType (field_type field)) false))).
Proof.
  unfold fieldProperty. destruct (useMarkdownDescription options).
  - rewrite obj_get_set_other by discriminate. apply obj_get_set_same.
  - apply obj_get_set_same.
Qed.

Lemma fieldProperty_default field typeDefinition fieldDefinition v :
  NoDup (obj_keys fieldDefinition) ->
  obj_get "default" fieldDefinition = Some v ->
  obj_get "default"
    (fieldProperty options field typeDefinition fieldDefinition) = Some v.
Proof.
  intros ND H. unfold fieldProperty.
  destruct (useMarkdownDescription options);
    rewrite !obj_get_set_other by discriminate;
    now apply obj_get_spread_present.
Qed.

(** An assignment to [__proto__] leaves the properties as they are, an
    assignment to another name sets the property. *)
Lemma obj_assign_proto v o : obj_assign "__proto__" v o = o.
Proof. reflexivity. Qed.

Lemma obj_assign_other k v o :
  k <> "__proto__" -> obj_assign k v o = obj_set k v o.
Proof.
  intros H. unfold obj_assign.
  destruct (k =? "__proto__") eqn:E; [|reflexivity].
  apply String.eqb_eq in E. contradiction.
Qed.

Lemma ownNames_proto names : ownNames ("__proto__" :: names) = ownNames names.
Proof. reflexivity. Qed.

Lemma ownNames_other name names :
  name <> "__proto__" -> ownNames (name :: names) = name :: ownNames names.
Proof.
  intros H. unfold ownNames. simpl.
  destruct (name =? "__proto__") eqn:E; [|reflexivity].
  apply String.eqb_eq in E. contradiction.
Qed.

Lemma Fields_shape :
  forall fields properties requiredFields defs marker
         properties' requiredFields' defs' marker' written,
    Fields schema options fields properties requiredFields defs marker
      properties' requiredFields' defs' marker' written ->
    requiredFields'
    = requiredFields ++ nonNullNames field_name field_type fields /\
    (NoDup (obj_keys properties ++ map field_name fields) ->
     obj_keys properties'
     = obj_keys properties ++ ownNames (map field_name fields) /\
     (forall k x, obj_get k properties = Some x ->
                  obj_get k properties' = Some x) /\
     forall field, In field fields -> field_name field <> "__proto__" ->
       exists property,
         obj_get (field_name field) properties' = Some (JObject property) /\
         obj_get "description" property
         = Some (JString
                   (described (field_description field)
                      (renderTypeToString (OfType (field_type field))
                         false))) /\
         forall v, field_defaultValue field = Some v ->
                   obj_get "default" property = Some v).
Proof.
  induction 1 as [|field rest p rq d m ofType m1 w1 ofField m2 w2 p' rq' d'
                    m' w' HT HF HR IH].
  - split; [now rewrite app_nil_r|]. intros _.
    split; [now rewrite app_nil_r|]. split; [auto|]. intros f [].
  - destruct IH as [Hrq Hp].
    rewrite (Synth_required _ _ _ _ _ _ _ _ HT) in Hrq.
    split.
    { rewrite Hrq. unfold nonNullNames. simpl.
      destruct (isNonNullType (field_type field)); simpl;
        now rewrite <- ?app_assoc. }
    intros ND. simpl in ND.
    destruct (string_dec (field_name field) "__proto__") as [E|E].
    + rewrite E, obj_assign_proto in Hp.
      destruct (Hp (NoDup_remove_1 _ _ _ ND)) as (Hkeys & Hframe & Hfields).
      cbn [map fst]. rewrite E, ownNames_proto.
      split; [assumption|]. split; [assumption|].
      intros f [<-|Hin] Hf; [contradiction|now apply Hfields].
    + rewrite obj_assign_other in Hp by assumption.
      destruct (NoDup_app_cons _ _ _ ND) as (Hfresh & Hlater & ND').
      rewrite obj_keys_set_fresh in Hp by assumption.
      destruct (Hp ND') as (Hkeys & Hframe & Hfields).
      cbn [map fst]. rewrite ownNames_other by assumption.
      split; [rewrite Hkeys; now rewrite <- app_assoc|].
      split.
      { intros k x Hk. apply Hframe.
        rewrite obj_get_set_other; [assumption|].
        intros <-. apply Hfresh. apply obj_get_In in Hk.
        apply in_map_iff. now exists (field_name field, x). }
      intros f [<-|Hin] Hf; [|now apply Hfields].
      eexists. split; [apply Hframe, obj_get_set_same|].
      split; [apply fieldProperty_description|].
      intros v Hv.
      destruct (field_call _ _ _ _ _ _ eq_refl HF) as (_ & NDf & Hd).
      apply fieldProperty_default; [assumption|congruence].
Qed.

Lemma Variables_shape :
  forall entries properties requiredVariables defs marker
         properties' requiredVariables' defs' marker' written,
    Variables schema options entries properties requiredVariables defs
      marker properties' requiredVariables' defs' marker' written ->
    requiredVariables' = requiredVariables ++ nonNullNames fst snd entries /\
    (NoDup (obj_keys properties ++ map fst entries) ->
     obj_keys properties'
     = obj_keys properties ++ ownNames (map fst entries) /\
     (forall k x, obj_get k properties = Some x ->
                  obj_get k properties' = Some x) /\
     forall variableName type,
       In (variableName, type) entries -> variableName <> "__proto__" ->
       exists result marker0 marker0' written0,
         Synth schema options (OfType type) false marker0 result marker0'
           written0 /\
         obj_get variableName properties'
         = Some (JObject (definition result))).
Proof.
  induction 1 as [|variableName type rest p rq defs m result m1 w1 p' rq'
                    defs' m' w' HS HV IH].
  - split; [now rewrite app_nil_r|]. intros _.
    split; [now rewrite app_nil_r|]. split; [auto|]. intros v t [].
  - destruct IH as [Hrq Hp].
    rewrite (Synth_required _ _ _ _ _ _ _ _ HS) in Hrq.
    split.
    { rewrite Hrq. unfold nonNullNames. simpl.
      destruct (isNonNullType type); simpl; now rewrite <- ?app_assoc. }
    intros ND. simpl in ND.
    destruct (string_dec variableName "__proto__") as [E|E].
    + rewrite E, obj_assign_proto in Hp.
      destruct (Hp (NoDup_remove_1 _ _ _ ND)) as (Hkeys & Hframe & Hvars).
      cbn [map fst]. rewrite E, ownNames_proto.
      split; [assumption|]. split; [assumption|].
      intros v t [[= <- <-]|Hin] Hv; [contradiction|now apply Hvars].
    + rewrite obj_assign_other in Hp by assumption.
      destruct (NoDup_app_cons _ _ _ ND) as (Hfresh & Hlater & ND').
      rewrite obj_keys_set_fresh in Hp by assumption.
      destruct (Hp ND') as (Hkeys & Hframe & Hvars).
      cbn [map fst]. rewrite ownNames_other by assumption.
      split; [rewrite Hkeys; now rewrite <- app_assoc|].
      split.
      { intros k x Hk. apply Hframe.
        rewrite obj_get_set_other; [assumption|].
        intros <-. apply Hfresh. apply obj_get_In in Hk.
        apply in_map_iff. now exists (variableName, x). }
      intros v t [[= <- <-]|Hin] Hv; [|now apply Hvars].
      exists result, m, m1, w1. split; [assumption|].
      apply Hframe, obj_get_set_same.
Qed.

End Shapes.

(** X14.  The document is an object schema of the 2020-12 dialect.  For a
    variable map without repeated names, the names being such that their
    properties are enumerated as they were inserted, its properties are
    keyed by the variable names in their order, but for [__proto__]: the
    assignment of line 401 to that name replaces the prototype of the
    properties and adds no property.  Its required list is the names of
    the variables of non-null type, in their order, [__proto__]
    included. *)
Theorem document_shape schema options variableToType doc :
  getVariablesJSONSchema schema options variableToType = Ok doc ->
  NoDup (map fst variableToType) ->
  insertionOrdered (map fst variableToType) ->
  exists properties,
    obj_get "$schema" doc
    = Some (JString "https://json-schema.org/draft/2020-12/schema") /\
    obj_get "type" doc = Some (JString "object") /\
    obj_get "properties" doc = Some (JObject properties) /\
    obj_keys properties = ownNames (map fst variableToType) /\
    obj_get "required" doc
    = Some (JArray (nonNullNames fst snd variableToType)).
Proof.
  intros H ND _.
  destruct (getVariablesJSONSchema_inv _ _ _ _ H)
    as (p & rq & defs & m & w & HL & HV & ->).
  destruct (Variables_shape _ _ _ _ _ _ _ _ _ _ _ _ HV) as [Hrq Hp].
  destruct (Hp ND) as (Hkeys & _ & _).
  exists p. subst rq. repeat split. assumption.
Qed.

Lemma document_shape_witness :
  exists doc,
    getVariablesJSONSchema graphSchema defaultJSONSchemaOptions
      [("id", GraphQLNonNull GraphQLID);
       ("__proto__", GraphQLNonNull GraphQLID);
       ("node", GraphQLInputObjectType "Node");
       ("edges", GraphQLNonNull (GraphQLList (GraphQLInputObjectType "Edge")))]
    = Ok doc /\
    exists properties,
      obj_get "$schema" doc
      = Some (JString "https://json-schema.org/draft/2020-12/schema") /\
      obj_get "type" doc = Some (JString "object") /\
      obj_get "properties" doc = Some (JObject properties) /\
      obj_keys properties = ["id"; "node"; "edges"] /\
      obj_get "required" doc
      = Some (JArray [JString "id"; JString "__proto__"; JString "edges"]).
Proof.
  eexists. split; [vm_compute; reflexivity|].
  apply (document_shape graphSchema defaultJSONSchemaOptions
           [("id", GraphQLNonNull GraphQLID);
            ("__proto__", GraphQLNonNull GraphQLID);
            ("node", GraphQLInputObjectType "Node");
            ("edges",
              GraphQLNonNull (GraphQLList (GraphQLInputObjectType "Edge")))]).
  - vm_compute. reflexivity.
  - repeat constructor; simpl; intuition discriminate.
  - repeat constructor.
Defined.

(** X15.  In the document of a variable map without repeated names the
    property of a variable, of any name but [__proto__], is the fragment
    that a call on its type alone returns in a nullable context, whatever
    that call finds marked: the other variables and their order do not
    change it.  (A variable named [__proto__] gets no property, as the
    keys of the properties show.) *)
Theorem property_is_fragment schema options variableToType doc variableName
  type fuel marker result marker' :
  getVariablesJSONSchema schema options variableToType = Ok doc ->
  NoDup (map fst variableToType) ->
  In (variableName, type) variableToType ->
  variableName <> "__proto__" ->
  getJSONSchemaFromGraphQLType schema options fuel (OfType type) false marker
  = Ok (result, marker') ->
  exists properties,
    obj_get "properties" doc = Some (JObject properties) /\
    obj_get variableName properties = Some (JObject (definition result)).
Proof.
  intros H ND Hin Hname Hcall.
  destruct (getVariablesJSONSchema_inv _ _ _ _ H)
    as (p & rq & defs & m & w & HL & HV & ->).
  destruct (Variables_shape _ _ _ _ _ _ _ _ _ _ _ _ HV) as [_ Hp].
  destruct (Hp ND) as (_ & _ & Hvars).
  destruct (Hvars _ _ Hin Hname) as (r & m0 & m0' & w0 & HS & Hget).
  apply getJSONSchemaFromGraphQLType_Synth in Hcall as [w1 Hcall].
  exists p. split; [reflexivity|].
  rewrite Hget. now rewrite (Synth_fragment _ _ _ _ _ _ _ _ HS _ _ _ _ Hcall).
Qed.

Lemma property_is_fragment_witness :
  exists doc result marker',
    getVariablesJSONSchema graphSchema defaultJSONSchemaOptions
      [("node", GraphQLInputObjectType "Node");
       ("edges", GraphQLList (GraphQLInputObjectType "Edge"))] = Ok doc /\
    getJSONSchemaFromGraphQLType graphSchema defaultJSONSchemaOptions 9
      (OfType (GraphQLList (GraphQLInputObjectType "Edge"))) false []
    = Ok (result, marker') /\
    exists properties,
      obj_get "properties" doc = Some (JObject properties) /\
      obj_get "edges" properties = Some (JObject (definition result)).
Proof.
  do 3 eexists. split; [vm_compute; reflexivity|].
  split; [vm_compute; reflexivity|].
  apply (property_is_fragment graphSchema defaultJSONSchemaOptions
           [("node", GraphQLInputObjectType "Node");
            ("edges", GraphQLList (GraphQLInputObjectType "Edge"))]
           _ "edges" (GraphQLList (GraphQLInputObjectType "Edge")) 9 []
           _ ["Edge"; "Node"]).
  - vm_compute. reflexivity.
  - repeat constructor; simpl; intuition discriminate.
  - right. left. reflexivity.
  - discriminate.
  - vm_compute. reflexivity.
Defined.

(** X16.  The call that marks an input object type whose fields have
    distinct names, such that their properties are enumerated as they were
    inserted, registers its object schema: of type [object],
    described by the description of the type, if any, and its name; with
    one property per field, in the order of the fields, but for a field
    named [__proto__] (the assignment of line 274 to that name replaces
    the prototype of the properties and adds no property); each property
    described by the description of the field, if any, and the rendered
    type of the field, and holding the default value of the field, if it
    has one; and with the names of the fields of non-null type as its
    required list. *)
Theorem input_object_definition schema options fuel name isNonNull marker
  result marker' :
  getJSONSchemaFromGraphQLType schema options fuel
    (OfType (GraphQLInputObjectType name)) isNonNull marker
  = Ok (result, marker') ->
  marked name marker = false ->
  NoDup (map field_name (getFields schema name)) ->
  insertionOrdered (map field_name (getFields schema name)) ->
  exists fieldDef properties,
    obj_get name (definitions result) = Some (JObject fieldDef) /\
    obj_get "type" fieldDef = Some (JString "object") /\
    obj_get "description" fieldDef
    = Some (JString (described (typeDescription schema name) name)) /\
    obj_get "properties" fieldDef = Some (JObject properties) /\
    obj_get "required" fieldDef
    = Some (JArray (nonNullNames field_name field_type
                      (getFields schema name))) /\
    obj_keys properties
    = ownNames (map field_name (getFields schema name)) /\
    forall field,
      In field (getFields schema name) -> field_name field <> "__proto__" ->
      exists property,
        obj_get (field_name field) properties = Some (JObject property) /\
        obj_get "description" property
        = Some (JString
                  (described (field_description field)
                     (renderTypeToString (OfType (field_type field))
                        false))) /\
        forall v, field_defaultValue field = Some v ->
                  obj_get "default" property = Some v.
Proof.
  intros H Hm ND _.
  apply getJSONSchemaFromGraphQLType_Synth in H as [w H].
  inversion H; subst; [congruence|].
  match goal with
  | Hf : Fields _ _ _ _ _ _ _ _ _ _ _ _ |- _ =>
      destruct (Fields_shape _ _ _ _ _ _ _ _ _ _ _ _ Hf) as [Hrq Hp]
  end.
  destruct (Hp ND) as (Hkeys & _ & Hfields).
  simpl in Hrq. subst requiredFields.
  eexists. exists properties. unfold finish. cbn [definitions].
  split; [apply obj_get_set_same|].
  repeat split; assumption.
Qed.

Lemma input_object_definition_witness :
  exists result marker',
    getJSONSchemaFromGraphQLType graphSchema defaultJSONSchemaOptions 9
      (OfType (GraphQLInputObjectType "Node")) false []
    = Ok (result, marker') /\
    exists fieldDef properties,
      obj_get "Node" (definitions result) = Some (JObject fieldDef) /\
      obj_get "type" fieldDef = Some (JString "object") /\
      obj_get "description" fieldDef
      = Some (JString (described (typeDescription graphSchema "Node") "Node"))
      /\
      obj_get "properties" fieldDef = Some (JObject properties) /\
      obj_get "required" fieldDef
      = Some (JArray (nonNullNames field_name field_type
                        (getFields graphSchema "Node"))) /\
      obj_keys properties
      = ownNames (map field_name (getFields graphSchema "Node")) /\
      forall field,
        In field (getFields graphSchema "Node") ->
        field_name field <> "__proto__" ->
        exists property,
          obj_get (field_name field) properties = Some (JObject property) /\
          obj_get "description" property
          = Some (JString
                    (described (field_description field)
                       (renderTypeToString (OfType (field_type field))
                          false))) /\
          forall v, field_defaultValue field = Some v ->
                    obj_get "default" property = Some v.
Proof.
  do 2 eexists. split; [vm_compute; reflexivity|].
  apply (input_object_definition graphSchema defaultJSONSchemaOptions 9
           "Node" false [] _ ["Node"; "Edge"]).
  - vm_compute. reflexivity.
  - reflexivity.
  - repeat constructor; simpl; intuition discriminate.
  - repeat constructor.
Defined.

(* ================================================================= *)
(** ** Further properties: the keys of a document *)

Section Vocabulary.

Variable schema : Schema.
Variable options : JSONSchemaOptions.
Variable k : string.

Hypothesis k_foreign : ~ In k (vocabulary options).

Hypothesis overrides_without :
  forall name custom,
    In (name, custom) (customScalarSchemas options) ->
    allFragments (lacks k) (JObject custom).

Lemma lacks_objects : aboutObjects (lacks k).
Proof. intros s Hs o v ->. exfalso. eapply Hs; reflexivity. Qed.

Lemma without_members o o1 o2 :
  (forall k' x, In (k', x) o -> In (k', x) o1 \/ In (k', x) o2) ->
  without k o1 -> without k o2 -> without k o.
Proof.
  intros Hsub H1 H2. apply allFragments_object.
  - intros o' v [= <-] Hin.
    destruct (Hsub _ _ Hin) as [Hm|Hm].
    + exact (allFragments_top _ _ H1 o1 v eq_refl Hm).
    + exact (allFragments_top _ _ H2 o2 v eq_refl Hm).
  - eapply allInside_members; eauto using allFragments_inside.
Qed.

Lemma without_nil : without k [].
Proof.
  apply allFragments_object; [|apply allInside_nil]. intros o v [= <-] [].
Qed.

Lemma without_set k' v o :
  without k [(k', v)] -> without k o -> without k (obj_set k' v o).
Proof.
  intros Hv Ho. apply (without_members _ [(k', v)] o); auto.
  intros k0 x H. apply In_obj_set in H as [H|H]; [left; now left | now right].
Qed.

Lemma without_spread a b :
  without k a -> without k b -> without k (obj_spread a b).
Proof.
  intros Ha Hb. apply (without_members _ a b); auto.
  intros k0 x. apply In_obj_spread.
Qed.

Lemma without_cons k' v o :
  without k [(k', v)] -> without k o -> without k ((k', v) :: o).
Proof.
  intros Hv Ho. apply (without_members _ [(k', v)] o); auto.
  intros k0 x [H|H]; [left; now left | now right].
Qed.

Lemma without_one k' v :
  k' <> k -> allInside (lacks k) [(k', v)] -> without k [(k', v)].
Proof.
  intros Hk Hin. apply allFragments_object; [|assumption].
  intros o x [= <-] [[= -> _]|[]]. contradiction.
Qed.

Lemma written_key k' : In k' (vocabulary options) -> k' <> k.
Proof. intros H ->. contradiction. Qed.

Lemma markdown_key :
  useMarkdownDescription options = true -> "markdownDescription" <> k.
Proof.
  intros H. apply written_key. unfold vocabulary. rewrite H.
  apply in_or_app. right. now left.
Qed.

Ltac known_key := unfold vocabulary; apply in_or_app; left; simpl; tauto.

Ltac base_key := apply written_key; known_key.

Ltac plain_word :=
  apply without_one; [base_key|];
  apply allInside_plain; simpl; intuition discriminate.

Ltac wording :=
  repeat first
    [ apply without_nil
    | assumption
    | plain_word
    | apply without_set
    | apply without_spread
    | match goal with |- without _ (_ :: _ :: _) => apply without_cons end ].

Lemma without_markdown v :
  useMarkdownDescription options = true ->
  without k [("markdownDescription", v)].
Proof.
  intros H. apply without_one; [now apply markdown_key|].
  apply allInside_plain; simpl; intuition discriminate.
Qed.

Lemma without_nullSchema : allFragments (lacks k) nullSchema.
Proof. unfold nullSchema. plain_word. Qed.

Lemma without_oneOf v :
  (forall elements c, v = JArray elements -> In c elements ->
                      allFragments (lacks k) c) ->
  without k [("oneOf", v)].
Proof.
  intros H. apply without_one; [base_key|]. now apply allInside_oneOf.
Qed.

Lemma without_alternative o elements c :
  without k o -> obj_get "oneOf" o = Some (JArray elements) ->
  In c elements -> allFragments (lacks k) c.
Proof.
  intros Ho Hget Hc. apply obj_get_In in Hget.
  eapply allFragments_alternative; eauto.
Qed.

Lemma without_describe type def :
  without k def -> without k (describe schema options type def).
Proof.
  intros H. unfold describe. cbv zeta.
  destruct (useMarkdownDescription options) eqn:U;
    destruct (ownDescription schema _), (truthyMember "description" def);
    repeat first [ apply without_set; [apply (without_markdown _ U)|]
                 | apply without_set; [plain_word|] ];
    assumption.
Qed.

Lemma without_finish type isNonNull def isRequired defs :
  without k def ->
  without k (definition (finish schema options type isNonNull def
                           isRequired defs)).
Proof.
  intros H. simpl. destruct isNonNull; [assumption|].
  now apply without_describe.
Qed.

Lemma without_broaden def def' :
  without k def -> broaden def = Ok def' -> without k def'.
Proof.
  intros H. unfold broaden.
  assert (Hwrap : without k [("oneOf", JArray [JObject def; nullSchema])]).
  { apply without_oneOf. intros els c [= <-] [<-|[<-|[]]];
      [assumption | apply without_nullSchema]. }
  assert (Hvia : forall r,
    match obj_get "oneOf" def with
    | Some (JArray alternatives) =>
        Ok (obj_set "oneOf" (JArray (alternatives ++ [nullSchema])) def)
    | Some v =>
        if truthy v then TypeError
        else Ok [("oneOf", JArray [JObject def; nullSchema])]
    | None => Ok [("oneOf", JArray [JObject def; nullSchema])]
    end = Ok r -> without k r).
  { intros r. destruct (obj_get "oneOf" def) as [v|] eqn:E;
      [|intros [= <-]; exact Hwrap].
    destruct v; try (destruct (truthy _); [discriminate|]);
      try (intros [= <-]; exact Hwrap).
    intros [= <-]. apply without_set; [|assumption].
    apply without_oneOf. intros els c [= <-] Hc.
    apply in_app_or in Hc as [Hc|[<-|[]]].
    - exact (without_alternative _ _ _ H E Hc).
    - apply without_nullSchema. }
  destruct (obj_get "type" def) as [v|] eqn:E; [|apply Hvia].
  destruct v; try (destruct (truthy _) eqn:T; [|apply Hvia]);
    try apply Hvia; intros [= <-];
    (apply without_set; [plain_word|assumption]).
Qed.

Lemma without_scalarBlock name isNonNull def :
  scalarBlock options name isNonNull [] = Ok def -> without k def.
Proof.
  unfold scalarBlock. destruct (scalarTypesMap name).
  - destruct isNonNull; intros [= <-]; plain_word.
  - assert (H : without k
                (match lookup name (customScalarSchemas options) with
                 | Some custom => custom
                 | None => obj_set "type" anyScalar []
                 end)).
    { destruct (lookup name (customScalarSchemas options)) eqn:E.
      - apply lookup_In in E. eapply overrides_without; eauto.
      - simpl. plain_word. }
    destruct isNonNull; [intros [= <-]; exact H|].
    now apply without_broaden.
Qed.

Lemma without_listItems def : without k def -> without k (listItems def).
Proof.
  intros H. unfold listItems, truthyMember.
  assert (Halt : forall v, obj_get "oneOf" def = Some v ->
                           without k [("oneOf", v)]).
  { intros v O. apply without_oneOf. intros els c -> Hc.
    exact (without_alternative _ _ _ H O Hc). }
  destruct (obj_get "$ref" def) as [r|] eqn:R; [destruct (truthy r)|].
  - plain_word.
  - destruct (obj_get "oneOf" def) as [v|] eqn:O; [|assumption].
    destruct (truthy v); [|assumption]. now apply Halt.
  - destruct (obj_get "oneOf" def) as [v|] eqn:O; [|assumption].
    destruct (truthy v); [|assumption]. now apply Halt.
Qed.

Lemma without_referenceBlock name isNonNull :
  without k (referenceBlock name isNonNull []).
Proof.
  unfold referenceBlock. destruct isNonNull; simpl.
  - plain_word.
  - apply without_oneOf. intros els c [= <-] [<-|[<-|[]]].
    + plain_word.
    + apply without_nullSchema.
Qed.

Lemma without_map k' entries :
  In k' (vocabulary options) ->
  ~ In k' schemaKeywords -> ~ In k' schemaArrayKeywords ->
  allEntries (lacks k) entries -> without k [(k', JObject entries)].
Proof.
  intros Hv H1 H2 He. apply without_one; [now apply written_key|].
  now apply allInside_map.
Qed.

Lemma without_fieldDefOf name properties requiredFields :
  allEntries (lacks k) properties ->
  without k (fieldDefOf schema options name properties requiredFields).
Proof.
  intros H. unfold fieldDefOf.
  destruct (useMarkdownDescription options) eqn:U; simpl.
  - apply without_cons; [plain_word|]. apply without_cons.
    { apply without_map; auto; [known_key | | ]; simpl; intuition discriminate. }
    apply without_cons; [plain_word|]. apply without_cons; [plain_word|].
    now apply without_markdown.
  - apply without_cons; [plain_word|]. apply without_cons.
    { apply without_map; auto; [known_key | | ]; simpl; intuition discriminate. }
    apply without_cons; [plain_word|]. plain_word.
Qed.

Lemma without_fieldProperty field typeDefinition fieldDefinition :
  without k typeDefinition -> without k fieldDefinition ->
  without k (fieldProperty options field typeDefinition fieldDefinition).
Proof.
  intros Ht Hf. unfold fieldProperty.
  destruct (useMarkdownDescription options) eqn:U.
  - apply without_set; [now apply without_markdown|].
    apply without_set; [plain_word|].
    repeat apply without_spread; auto using without_nil.
  - apply without_set; [plain_word|].
    repeat apply without_spread; auto using without_nil.
Qed.

Lemma without_document properties requiredVariables defs :
  allEntries (lacks k) properties ->
  allEntries (lacks k) (entriesOf defs) ->
  without k (document properties requiredVariables defs).
Proof.
  intros Hp Hd. unfold document. destruct defs as [d|]; simpl.
  - apply without_cons; [plain_word|]. apply without_cons; [plain_word|].
    apply without_cons.
    { apply without_map; auto; [known_key | | ]; simpl; intuition discriminate. }
    apply without_cons; [plain_word|].
    apply without_map; auto; [known_key | | ]; simpl; intuition discriminate.
  - apply without_cons; [plain_word|]. apply without_cons; [plain_word|].
    apply without_cons.
    { apply without_map; auto; [known_key | | ]; simpl; intuition discriminate. }
    plain_word.
Qed.

Lemma without_Synth_Fields :
  (forall type isNonNull marker result marker' written,
      Synth schema options type isNonNull marker result marker' written ->
      without k (definition result) /\
      allEntries (lacks k) (definitions result)) /\
  (forall fields properties requiredFields defs marker
          properties' requiredFields' defs' marker' written,
      Fields schema options fields properties requiredFields defs marker
        properties' requiredFields' defs' marker' written ->
      allEntries (lacks k) properties ->
      allEntries (lacks k) defs ->
      allEntries (lacks k) properties' /\ allEntries (lacks k) defs').
Proof.
  apply Synth_Fields_mutind; intros.
  - split; [|apply allEntries_nil]. apply without_finish.
    unfold defaultBlock. destruct (field_defaultValue f);
      [simpl; plain_word|apply without_nil].
  - split; [|apply allEntries_nil]. apply without_finish.
    unfold enumBlock. simpl. plain_word.
  - split; [|apply allEntries_nil]. apply without_finish.
    eapply without_scalarBlock; eauto.
  - destruct H0 as [Hd He]. split.
    + apply without_finish. apply without_set; [|simpl; plain_word].
      apply without_one; [base_key|].
      apply allInside_items. now apply without_listItems.
    + simpl. apply allEntries_spread; auto using allEntries_nil.
  - destruct H0 as [Hd He]. split.
    + now apply without_finish.
    + simpl. apply allEntries_spread; auto using allEntries_nil.
  - split; [|apply allEntries_nil]. apply without_finish.
    apply without_referenceBlock.
  - destruct H1 as [Hp Hd]; try apply allEntries_nil.
    split.
    + apply without_finish. apply without_referenceBlock.
    + simpl. apply allEntries_set; [|assumption].
      now apply without_fieldDefOf.
  - split; assumption.
  - destruct H0 as [Hd1 He1]. destruct H2 as [Hd2 He2].
    apply H4.
    + apply allEntries_assign; [|assumption].
      now apply without_fieldProperty.
    + now apply allEntries_spread.
Qed.

Lemma without_Variables :
  forall entries properties requiredVariables defs marker
         properties' requiredVariables' defs' marker' written,
    Variables schema options entries properties requiredVariables defs
      marker properties' requiredVariables' defs' marker' written ->
    allEntries (lacks k) properties ->
    allEntries (lacks k) (entriesOf defs) ->
    allEntries (lacks k) properties' /\
    allEntries (lacks k) (entriesOf defs').
Proof.
  induction 1 as [|variableName type rest p rq defs m result m1 w1 p' rq'
                    defs' m' w' HS HV IH]; intros Hp Hd.
  - split; assumption.
  - destruct (proj1 without_Synth_Fields _ _ _ _ _ _ HS) as [Hd1 He1].
    apply IH.
    + now apply allEntries_assign.
    + simpl. apply allEntries_spread; [|assumption].
      apply allEntries_spread; [apply allEntries_nil|assumption].
Qed.

End Vocabulary.

(** X17.  The fragments of a document (the document and the schemas within
    it: its properties and definitions, their properties, the items of
    lists, the alternatives of unions) have no keys but the ones of the
    vocabulary of the synthesizer and the ones that the fragments of
    overrides bring: [$schema], [type], [properties], [required],
    [definitions], [default], [enum], [items], [oneOf], [$ref],
    [description], and [markdownDescription] only with
    [useMarkdownDescription].  A key outside of it that no fragment of an
    override holds is the key of no fragment.  (What stands under
    [default] is a value, copied as it is, and no fragment.) *)
Theorem document_vocabulary schema options variableToType doc k o v :
  ~ In k (vocabulary options) ->
  (forall name custom,
      In (name, custom) (customScalarSchemas options) ->
      allFragments (lacks k) (JObject custom)) ->
  getVariablesJSONSchema schema options variableToType = Ok doc ->
  fragmentOf (JObject doc) (JObject o) ->
  ~ In (k, v) o.
Proof.
  intros Hk Hcustom H Hfrag.
  destruct (getVariablesJSONSchema_inv _ _ _ _ H)
    as (p & rq & defs & m & w & HL & HV & ->).
  destruct (without_Variables schema options k Hk Hcustom
              _ _ _ _ _ _ _ _ _ _ HV)
    as [Hp Hd]; try apply allEntries_nil.
  exact (without_document options k Hk p rq defs Hp Hd _ Hfrag o v eq_refl).
Qed.

Lemma document_vocabulary_witness :
  ~ In ("markdownDescription",
         JString ("```graphql" ^^ nl ^^ "Filter!" ^^ nl ^^ "```"))
      [("$ref", refTo "Filter"); ("description", JString "Filter!")].
Proof.
  apply (document_vocabulary filterSchema defaultJSONSchemaOptions
           [("filter", GraphQLNonNull (GraphQLInputObjectType "Filter"))]
           (document
              [("filter",
                JObject [("$ref", refTo "Filter");
                         ("description", JString "Filter!")])]
              [JString "filter"]
              (Some
                 [("Filter",
                   JObject
                     (fieldDefOf filterSchema defaultJSONSchemaOptions
                        "Filter"
                        [("self",
                          JObject
                            [("oneOf",
                              JArray [JObject [("$ref", refTo "Filter")];
                                      nullSchema]);
                             ("description", JString "Filter")])]
                        []))]))
           "markdownDescription").
  - simpl. intuition discriminate.
  - intros name custom [].
  - reflexivity.
  - eapply fragment_inside; [|apply fragment_here].
    eapply (subschema_map "properties");
      [simpl; tauto | simpl; right; right; left; reflexivity
      | left; reflexivity].
Defined.
